(** * zerolog-to-slog: the rewriting engine of [main.go]

    A shallow embedding of the syntax-tree matcher and rebuilder
    ([RewriteVisitor.Visit], [extractZerologChain],
    [convertFieldToSlogAttr], [buildSlogLogAttrsCall], [isLoggerLevel],
    [logLevels]) together with the two tree passes of [processFile]
    ([dst.Walk], then [dstutil.Apply] with the replacement closure of
    [replaceAndPrintDST]). *)

From Stdlib Require Import String Ascii List Bool Arith Lia.
From stdpp Require Import base option list strings gmap fin_maps pretty.

Import ListNotations.
Local Open Scope string_scope.
Local Open Scope list_scope.
Local Set Warnings "-register-all".

(** ** Go runtime outcomes *)

(** A Go call either returns a value or aborts with a runtime panic
    (here: an index out of range). *)
Inductive outcome (A : Type) : Type :=
| Returns (a : A)
| Panics (msg : string).
Arguments Returns {A} a.
Arguments Panics {A} msg.

#[global] Instance outcome_bind : MBind outcome := fun A B k m =>
  match m with
  | Returns a => k a
  | Panics msg => Panics msg
  end.

(** [l[i]] on a Go slice. *)
Definition index {A} (l : list A) (i : nat) : outcome A :=
  match l !! i with
  | Some x => Returns x
  | None => Panics "index out of range"
  end.

(** ** Strings *)

Definition dquote : string := String "034"%char EmptyString.

(** A Go string literal as it is stored in [BasicLit.Value]: the text
    between double quotes. *)
Definition quoted (s : string) : string := dquote +:+ s +:+ dquote.

(** [strings.Split(s, sep)] for a non-empty separator. [skip] counts the
    characters of a separator occurrence still to be consumed, [cur] is
    the piece read so far. *)
Fixpoint splitAux (sep s : string) (skip : nat) (cur : string) : list string :=
  match s with
  | EmptyString => [cur]
  | String c s' =>
      match skip with
      | S k => splitAux sep s' k cur
      | O =>
          if String.prefix sep s
          then cur :: splitAux sep s' (String.length sep - 1) EmptyString
          else splitAux sep s' 0 (cur +:+ String c EmptyString)
      end
  end.

Definition Split (s sep : string) : list string := splitAux sep s 0 EmptyString.

(** ** The decorated syntax tree *)

Inductive Token := INT | FLOAT | IMAG | CHAR | STRING.

Inductive SpaceType := NoSpace | NewLine | EmptyLine.

(** Modelled from the spec: the opaque "surrounding decoration" payload
    (comments and blank lines) that a node carries; its declaration
    belongs to the tree library and is not among the sources. *)
Record NodeDecs := {
  Before : SpaceType;
  Start : list string;
  End_ : list string;
  After : SpaceType
}.

Record BasicLitT := { Kind : Token; Value : string }.

(** [dst.Node]: the node shapes the engine reads or builds, and
    [OtherNode] for every other shape (function literals, blocks,
    declarations, files, ...) with its children in traversal order.
    [SelectorExpr.Sel] and [ImportSpec.Name] are identifiers and are kept
    as their [Name]. *)
Inductive Node : Type :=
| Ident (Name : string)
| BasicLit (lit : BasicLitT)
| SelectorExpr (X : Node) (Sel : string)
| CallExpr (Fun : Node) (Args : list Node)
| ExprStmt (X : Node) (Decs : NodeDecs)
| ImportSpec (Name : option string) (Path : BasicLitT) (Decs : NodeDecs)
| OtherNode (kind : string) (children : list Node).

(** Pointer identity of a node of a parsed file: its position, the child
    indices on the way from the root. *)
Abbreviation NodeId := (list nat) (only parsing).

(** ** [logLevels] and [isLoggerLevel] *)

Definition logLevels : gmap string string :=
  list_to_map
    [ ("Trace", "slog.LevelTrace");
      ("Debug", "slog.LevelDebug");
      ("Info", "slog.LevelInfo");
      ("Warn", "slog.LevelWarn");
      ("Error", "slog.LevelError");
      ("Fatal", "slog.LevelError");
      ("Panic", "slog.LevelError") ].

Definition isLoggerLevel (name : string) : bool :=
  match logLevels !! name with
  | Some _ => true
  | None => false
  end.

(** ** [convertFieldToSlogAttr] *)

Definition oneOf (name : string) (names : list string) : bool :=
  existsb (String.eqb name) names.

Definition slogCall (slogAttrFunc : string) (slogArgs : list Node) : Node :=
  CallExpr (SelectorExpr (Ident "slog") slogAttrFunc) slogArgs.

(** The three width-converting cases: exactly two arguments, the second
    wrapped in a conversion call. *)
Definition wrapSecond (slogAttrFunc conv : string) (args : list Node) : option Node :=
  match args with
  | [a0; a1] => Some (slogCall slogAttrFunc [a0; CallExpr (Ident conv) [a1]])
  | _ => None
  end.

(** [None] is the nil result. *)
Definition convertFieldToSlogAttr (funcName : string) (args : list Node) : option Node :=
  if oneOf funcName ["Bool"] then Some (slogCall "Bool" args)
  else if oneOf funcName ["Dur"] then Some (slogCall "Duration" args)
  else if oneOf funcName ["Float32"] then wrapSecond "Float64" "float64" args
  else if oneOf funcName ["Float64"] then Some (slogCall "Float64" args)
  else if oneOf funcName ["Str"] then Some (slogCall "String" args)
  else if oneOf funcName ["Int"] then Some (slogCall "Int" args)
  else if oneOf funcName ["Int8"; "Int16"; "Int32"] then wrapSecond "Int" "int" args
  else if oneOf funcName ["Int64"] then Some (slogCall "Int64" args)
  else if oneOf funcName ["Uint64"] then Some (slogCall "UInt64" args)
  else if oneOf funcName ["Uint"; "Uint8"; "Uint16"; "Uint32"]
       then wrapSecond "Uint64" "uint64" args
  else if oneOf funcName ["Time"] then Some (slogCall "Time" args)
  else if oneOf funcName ["Err"]
       then Some (slogCall "Any" (BasicLit {| Kind := STRING; Value := quoted "err" |} :: args))
  else if Nat.eqb (length args) 2 then Some (slogCall "Any" args)
  else None.

(** ** [extractZerologChain] *)

(** The result triple [(level, message, slogAttrs)]; a nil message is
    [None], a nil slice is [[]]. *)
Definition Extracted : Type := string * option Node * list Node.

Definition noMatch : Extracted := (EmptyString, None, []).

(** The [for] loop. [current] is the call under inspection; the test
    that the receiver of a field link is itself a call is made when the
    loop is entered with that receiver. *)
Fixpoint chainLoop (message : option Node) (current : Node) (slogAttrs : list Node)
  : Extracted :=
  match current with
  | CallExpr (SelectorExpr X funcName) Args =>
      if isLoggerLevel funcName then
        match X with
        | Ident _ => (funcName, message, slogAttrs)
        | _ => noMatch
        end
      else
        let slogAttrs' :=
          match convertFieldToSlogAttr funcName Args with
          | Some attrCall => attrCall :: slogAttrs
          | None => slogAttrs
          end in
        chainLoop message X slogAttrs'
  | _ => noMatch
  end.

Definition defaultMessage : Node :=
  BasicLit {| Kind := STRING; Value := quoted "zerolog event" |}.

Definition extractZerologChain (currentCall : Node) (termFunc : string)
    (termArgs : list Node) : outcome Extracted :=
  message ← (if oneOf termFunc ["Msg"; "Msgf"]
              then index termArgs 0
              else Returns defaultMessage);
  Returns (chainLoop (Some message) currentCall []).

(** ** [buildSlogLogAttrsCall] *)

Definition buildSlogLogAttrsCall (levelStr : string) (message : Node)
    (slogAttrs : list Node) : outcome Node :=
  let levelConstant :=
    match logLevels !! levelStr with
    | Some c => c
    | None => "slog.LevelInfo"
    end in
  let parts := Split levelConstant "." in
  levelPackage ← index parts 0;
  levelName ← index parts 1;
  let levelExpr := SelectorExpr (Ident levelPackage) levelName in
  let contextExpr := Ident "ctx" in
  let args := [contextExpr; levelExpr; message] ++ slogAttrs in
  Returns (CallExpr (SelectorExpr (Ident "slog") "LogAttrs") args).

(** ** [RewriteVisitor] *)

Record RewriteVisitor := { Replacements : gmap NodeId Node }.

Definition record (v : RewriteVisitor) (id : NodeId) (new : Node) : RewriteVisitor :=
  {| Replacements := <[id := new]> (Replacements v) |}.

Definition zerologImport : string := quoted "github.com/rs/zerolog/log".
Definition slogImport : string := quoted "log/slog".

(** The call-statement part of [Visit]: the replacement statement for an
    expression statement, if it is a convertible chain. *)
Definition visitExprStmt (X : Node) (Decs : NodeDecs) : outcome (option Node) :=
  match X with
  | CallExpr (SelectorExpr chainHead termFunc) Args =>
      if negb (oneOf termFunc ["Msg"; "Msgf"; "Send"]) then Returns None
      else
        match chainHead with
        | CallExpr _ _ =>
            r ← extractZerologChain chainHead termFunc Args;
            match r with
            | (levelStr, Some messageExpr, slogAttrs) =>
                newSlogCall ← buildSlogLogAttrsCall levelStr messageExpr slogAttrs;
                Returns (Some (ExprStmt newSlogCall Decs))
            | (_, None, _) => Returns None
            end
        | _ => Returns None
        end
  | _ => Returns None
  end.

(** [Visit] at the node with identity [id]. The boolean is [true] when
    the visitor itself is returned (descend into the children) and
    [false] when nil is returned. *)
Definition Visit (v : RewriteVisitor) (id : NodeId) (node : Node)
  : outcome (RewriteVisitor * bool) :=
  match node with
  | ImportSpec _ Path Decs =>
      if String.eqb (Value Path) zerologImport
      then Returns (record v id
                      (ImportSpec None {| Kind := STRING; Value := slogImport |} Decs),
                    false)
      else Returns (v, true)
  | ExprStmt X Decs =>
      r ← visitExprStmt X Decs;
      match r with
      | Some newSlogStmt => Returns (record v id newSlogStmt, false)
      | None => Returns (v, true)
      end
  | _ => Returns (v, true)
  end.

(** ** The two tree passes of [processFile] *)

Section ChildLists.
Context {S : Type}.
Variable f : S -> nat -> Node -> outcome S.

(** Visit the elements of a child list in order, threading the state;
    [i] is the index of the first element among the children. *)
Fixpoint walkList (s : S) (i : nat) (l : list Node) : outcome S :=
  match l with
  | [] => Returns s
  | n :: l' => s' ← f s i n; walkList s' (Datatypes.S i) l'
  end.

Variable g : nat -> Node -> Node.

Fixpoint applyList (i : nat) (l : list Node) : list Node :=
  match l with
  | [] => []
  | n :: l' => g i n :: applyList (Datatypes.S i) l'
  end.
End ChildLists.

(** [dst.Walk(v, node)]: [Visit] the node; unless it returned nil, walk
    the children in order (the closing [Visit(nil)] records nothing).
    The identifier children [Sel] and [Name] and the literal [Path] are
    leaves on which [Visit] records nothing. *)
Fixpoint Walk (v : RewriteVisitor) (id : NodeId) (node : Node) {struct node}
  : outcome RewriteVisitor :=
  '(v, descend) ← Visit v id node;
  if descend : bool then
    match node with
    | Ident _ | BasicLit _ | ImportSpec _ _ _ => Returns v
    | SelectorExpr X _ => Walk v (id ++ [0]) X
    | ExprStmt X _ => Walk v (id ++ [0]) X
    | CallExpr Fun Args =>
        v' ← Walk v (id ++ [0]) Fun;
        walkList (fun v i n => Walk v (id ++ [i]) n) v' 1 Args
    | OtherNode _ children =>
        walkList (fun v i n => Walk v (id ++ [i]) n) v 0 children
    end
  else Returns v.

(** [dstutil.Apply(fileNode, nil, post)] with the [post] closure of
    [replaceAndPrintDST]: children first, then the node itself is
    replaced when it is a key of [replacements]. A replacement shares the
    argument subtrees of the node it replaces; they are taken as
    recorded, which is what happens for the maps [Walk] builds, where no
    key lies below another. *)
Fixpoint Apply (replacements : gmap NodeId Node) (id : NodeId) (node : Node)
    {struct node} : Node :=
  let node' :=
    match node with
    | Ident _ | BasicLit _ | ImportSpec _ _ _ => node
    | SelectorExpr X Sel => SelectorExpr (Apply replacements (id ++ [0]) X) Sel
    | ExprStmt X Decs => ExprStmt (Apply replacements (id ++ [0]) X) Decs
    | CallExpr Fun Args =>
        CallExpr (Apply replacements (id ++ [0]) Fun)
                 (applyList (fun i n => Apply replacements (id ++ [i]) n) 1 Args)
    | OtherNode kind children =>
        OtherNode kind (applyList (fun i n => Apply replacements (id ++ [i]) n) 0 children)
    end in
  match replacements !! id with
  | Some newExpr => newExpr
  | None => node'
  end.

Definition newVisitor : RewriteVisitor := {| Replacements := ∅ |}.

(** Steps 3 and 4 of [processFile] on a decorated file: the collected
    replacements and the rewritten tree. When nothing was recorded
    [processFile] stops after step 3 and the file stays as it is, which
    is also what [Apply] makes of the empty map. *)
Definition transform (file : Node) : outcome (RewriteVisitor * Node) :=
  v ← Walk newVisitor [] file;
  Returns (v, Apply (Replacements v) [] file).

(** * Vocabulary of the specification *)

(** ** Levels, messages and the flat call *)

Definition levelNames : list string :=
  ["Trace"; "Debug"; "Info"; "Warn"; "Error"; "Fatal"; "Panic"].

(** The severity mapping as the specification words it. *)
Definition severityTarget (level : string) : string :=
  if oneOf level ["Trace"; "Debug"; "Info"; "Warn"; "Error"] then "Level" +:+ level
  else if oneOf level ["Fatal"; "Panic"] then "LevelError"
  else "LevelInfo".

Definition isTerminator (termFunc : string) : bool :=
  oneOf termFunc ["Msg"; "Msgf"; "Send"].

(** The message of a terminator as the specification words it. *)
Definition messageOf (termFunc : string) (termArgs : list Node) : option Node :=
  if oneOf termFunc ["Msg"; "Msgf"] then termArgs !! 0 else Some defaultMessage.

Definition errKey : Node := BasicLit {| Kind := STRING; Value := quoted "err" |}.

Definition slogLogAttrs (args : list Node) : Node :=
  CallExpr (SelectorExpr (Ident "slog") "LogAttrs") args.

(** The flat call that replaces a chain statement. *)
Definition flatStmt (level : string) (message : Node) (attrs : list Node)
    (Decs : NodeDecs) : Node :=
  ExprStmt
    (slogLogAttrs (Ident "ctx" :: SelectorExpr (Ident "slog") (severityTarget level)
                     :: message :: attrs))
    Decs.

(** The decoration payload of the two node shapes the engine replaces. *)
Definition Decorations (node : Node) : option NodeDecs :=
  match node with
  | ExprStmt _ Decs => Some Decs
  | ImportSpec _ _ Decs => Some Decs
  | _ => None
  end.

(** ** Chains *)

(** A chain link [.Method(args...)]. *)
Definition Link : Type := string * list Node.

Definition addLink (recv : Node) (l : Link) : Node :=
  CallExpr (SelectorExpr recv l.1) l.2.

(** [root.Level(..).F1(..)....Fn(..)], the fields in source order. *)
Definition mkChain (root : string) (level : Link) (fields : list Link) : Node :=
  foldl addLink (addLink (Ident root) level) fields.

(** The statement [root.Level(..).F1(..)....Fn(..).Term(..)]. *)
Definition chainStmt (root : string) (level : Link) (fields : list Link)
    (term : Link) (Decs : NodeDecs) : Node :=
  ExprStmt (addLink (mkChain root level fields) term) Decs.

Definition convertLink (l : Link) : option Node := convertFieldToSlogAttr l.1 l.2.

(** One iteration's update of the field list. *)
Definition pushAttr (funcName : string) (args slogAttrs : list Node) : list Node :=
  match convertFieldToSlogAttr funcName args with
  | Some attrCall => attrCall :: slogAttrs
  | None => slogAttrs
  end.


(** ** Views of the traversal *)

(** The decision [Visit] takes at a node, apart from the update of the
    map: the replacement it records, if any. *)
Definition replacementOf (node : Node) : outcome (option Node) :=
  match node with
  | ImportSpec _ Path Decs =>
      if String.eqb (Value Path) zerologImport
      then Returns (Some (ImportSpec None {| Kind := STRING; Value := slogImport |} Decs))
      else Returns None
  | ExprStmt X Decs => visitExprStmt X Decs
  | _ => Returns None
  end.

Definition isNoMatch (r : outcome (option Node)) : bool :=
  match r with
  | Returns None => true
  | _ => false
  end.

(** The children of a node that [Walk] descends into, in order. *)
Definition children (node : Node) : list Node :=
  match node with
  | Ident _ | BasicLit _ | ImportSpec _ _ _ => []
  | SelectorExpr X _ => [X]
  | ExprStmt X _ => [X]
  | CallExpr Fun Args => Fun :: Args
  | OtherNode _ children => children
  end.

(** Put rewritten children back under a node. *)
Definition withChildren (node : Node) (cs : list Node) : Node :=
  match node, cs with
  | SelectorExpr _ Sel, [X] => SelectorExpr X Sel
  | ExprStmt _ Decs, [X] => ExprStmt X Decs
  | CallExpr _ _, Fun :: Args => CallExpr Fun Args
  | OtherNode kind _, _ => OtherNode kind cs
  | _, _ => node
  end.

(** What [Walk] does below a node at which [Visit] returned the visitor. *)
Definition walkChildren (v : RewriteVisitor) (id : NodeId) (node : Node)
  : outcome RewriteVisitor :=
  walkList (fun v i n => Walk v (id ++ [i]) n) v 0 (children node).

(** The statement matcher records nothing at any node of the subtree. *)
Fixpoint matchFree (node : Node) : bool :=
  isNoMatch (replacementOf node) &&
  match node with
  | Ident _ | BasicLit _ | ImportSpec _ _ _ => true
  | SelectorExpr X _ => matchFree X
  | ExprStmt X _ => matchFree X
  | CallExpr Fun Args => matchFree Fun && forallb matchFree Args
  | OtherNode _ children => forallb matchFree children
  end.

(** Below every node that the statement matcher replaces (in a function
    literal among the arguments of the chain) the statement matcher does
    nothing at any node: it neither replaces a node there nor panics on
    one. *)
Fixpoint noNestedMatch (node : Node) : bool :=
  match replacementOf node with
  | Returns (Some _) => forallb matchFree (children node)
  | _ =>
      match node with
      | Ident _ | BasicLit _ | ImportSpec _ _ _ => true
      | SelectorExpr X _ => noNestedMatch X
      | ExprStmt X _ => noNestedMatch X
      | CallExpr Fun Args => noNestedMatch Fun && forallb noNestedMatch Args
      | OtherNode _ children => forallb noNestedMatch children
      end
  end.

(** Same shape along the chain: same node kinds, selector names and
    argument counts; statements, imports and other nodes are compared by
    kind only. *)
Inductive skel : Node -> Node -> Prop :=
| skel_Ident n n' : skel (Ident n) (Ident n')
| skel_BasicLit l l' : skel (BasicLit l) (BasicLit l')
| skel_SelectorExpr X X' Sel : skel X X' -> skel (SelectorExpr X Sel) (SelectorExpr X' Sel)
| skel_CallExpr Fun Fun' Args Args' :
    skel Fun Fun' -> length Args = length Args' ->
    skel (CallExpr Fun Args) (CallExpr Fun' Args')
| skel_ExprStmt X X' D D' : skel (ExprStmt X D) (ExprStmt X' D')
| skel_ImportSpec N N' P P' D D' : skel (ImportSpec N P D) (ImportSpec N' P' D')
| skel_OtherNode k k' c c' : skel (OtherNode k c) (OtherNode k' c').

(** [Walk] at a node leaves alone every identity that is not at or below
    the node. *)
Definition framed (node : Node) : Prop :=
  forall v id v1, Walk v id node = Returns v1 ->
  forall q, (forall p, q <> id ++ p) ->
  Replacements v1 !! q = Replacements v !! q.

(** [Walk] at a node, started with nothing recorded at or below it,
    records no identity below a recorded one. *)
Definition prefixFree (node : Node) : Prop :=
  forall v id v1, Walk v id node = Returns v1 ->
  (forall p, Replacements v !! (id ++ p) = None) ->
  forall q p, is_Some (Replacements v1 !! (id ++ q)) -> p <> [] ->
  Replacements v1 !! (id ++ q ++ p) = None.

(** After a first pass over [node], started with nothing recorded at or
    below it, the rewritten node keeps its shape and a second pass
    records nothing in it. [m] is any map that agrees with the first pass
    at and below the node. *)
Definition settles (node : Node) : Prop :=
  forall v id v1 (m : gmap NodeId Node),
    Walk v id node = Returns v1 ->
    (forall p, Replacements v !! (id ++ p) = None) ->
    (forall p, m !! (id ++ p) = Replacements v1 !! (id ++ p)) ->
    noNestedMatch node = true ->
    skel node (Apply m id node) /\
    forall v' id', Walk v' id' (Apply m id node) = Returns v'.

(** ** Sample trees *)

Definition noDecs : NodeDecs :=
  {| Before := NoSpace; Start := []; End_ := []; After := NoSpace |}.

Definition lit (s : string) : Node := BasicLit {| Kind := STRING; Value := quoted s |}.

Definition funcLit (body : list Node) : Node :=
  OtherNode "FuncLit" [OtherNode "FuncType" []; OtherNode "BlockStmt" body].

Definition funcDecl (name : string) (body : list Node) : Node :=
  OtherNode "FuncDecl" [Ident name; OtherNode "FuncType" []; OtherNode "BlockStmt" body].

Definition importDecl (paths : list string) : Node :=
  OtherNode "GenDecl"
    (map (fun p => ImportSpec None {| Kind := STRING; Value := quoted p |} noDecs) paths).

(** [log.Info().Str("k", "v").Foo(x).Msg("m")] *)
Definition stmtUnknownField : Node :=
  chainStmt "log" ("Info", []) [("Str", [lit "k"; lit "v"]); ("Foo", [Ident "x"])]
    ("Msg", [lit "m"]) noDecs.

(** [x.Info().Msg()] *)
Definition stmtMsgNoArgs : Node :=
  chainStmt "x" ("Info", []) [] ("Msg", []) noDecs.

(** A file whose [main] holds the single statement [x.Info().Msg()]. *)
Definition fileMsgNoArgs : Node :=
  OtherNode "File" [Ident "main"; funcDecl "main" [stmtMsgNoArgs]].

(** [log.Debug().Msg("inner")] *)
Definition stmtInner : Node :=
  chainStmt "log" ("Debug", []) [] ("Msg", [lit "inner"]) noDecs.

(** [log.Info().Str("k", func() { log.Debug().Msg("inner") }()).Msg("outer")] *)
Definition stmtOuter : Node :=
  chainStmt "log" ("Info", [])
    [("Str", [lit "k"; CallExpr (funcLit [stmtInner]) []])]
    ("Msg", [lit "outer"]) noDecs.

Definition fileNested : Node :=
  OtherNode "File"
    [Ident "main"; importDecl ["github.com/rs/zerolog/log"]; funcDecl "main" [stmtOuter]].

(** Chain statements side by side, none inside another. *)
Definition fileFlat : Node :=
  OtherNode "File"
    [Ident "main"; importDecl ["fmt"; "github.com/rs/zerolog/log"];
     funcDecl "main"
       [stmtUnknownField; stmtInner;
        ExprStmt (CallExpr (SelectorExpr (Ident "fmt") "Println") [lit "done"]) noDecs]].

(** [myLogger.Warn().Str("k", "v").Send()] in a file that imports only
    [fmt]. *)
Definition fileNoImport : Node :=
  OtherNode "File"
    [Ident "main"; importDecl ["fmt"];
     funcDecl "main"
       [chainStmt "myLogger" ("Warn", []) [("Str", [lit "k"; lit "v"])] ("Send", [])
          noDecs]].

(** * Further vocabulary *)

(** ** The field table *)

(** Field methods whose arguments are passed on as they are. *)
Definition passThroughNames : list string :=
  ["Bool"; "Dur"; "Float64"; "Str"; "Int"; "Int64"; "Uint64"; "Time"].

(** Field methods whose value is wrapped in a conversion. *)
Definition wideningNames : list string :=
  ["Float32"; "Int8"; "Int16"; "Int32"; "Uint"; "Uint8"; "Uint16"; "Uint32"].

(** The function names of package [slog] the field mapper emits. *)
Definition targetNames : list string :=
  ["Bool"; "Duration"; "Float64"; "String"; "Int"; "Int64"; "UInt64"; "Uint64";
   "Time"; "Any"].

(** The conversions the field mapper emits, each with the target it goes
    with. *)
Definition conversions : list (string * string) :=
  [("float64", "Float64"); ("int", "Int"); ("uint64", "Uint64")].

(** ** The spine of a call chain *)

(** The links of a chain of method calls, innermost first, and what the
    innermost call is made on. Every node is a chain of zero or more
    links on its base. *)
Fixpoint spineLinks (n : Node) : list Link :=
  match n with
  | CallExpr (SelectorExpr X f) a => spineLinks X ++ [(f, a)]
  | _ => []
  end.

Fixpoint spineBase (n : Node) : Node :=
  match n with
  | CallExpr (SelectorExpr X f) a => spineBase X
  | _ => n
  end.

Definition mkChainOn (base : Node) (links : list Link) : Node :=
  foldl addLink base links.

Definition isFieldLink (l : Link) : bool := negb (isLoggerLevel l.1).

(** What the chain extractor makes of a chain, read off its spine: the
    base must be an identifier, the innermost link a level and no other
    link may be named like a level. *)
Definition extractSpine (message : Node) (current : Node) : Extracted :=
  match spineBase current, spineLinks current with
  | Ident _, level :: fields =>
      if isLoggerLevel level.1 && forallb isFieldLink fields
      then (level.1, Some message, omap convertLink fields)
      else noMatch
  | _, _ => noMatch
  end.

(** [s.logger.Info().Str("k", "v").Msg("m")]: the logger is a field. *)
Definition stmtFieldLogger : Node :=
  ExprStmt
    (addLink (mkChainOn (SelectorExpr (Ident "s") "logger")
                [("Info", []);
                 ("Str", [BasicLit {| Kind := STRING; Value := quoted "k" |};
                          BasicLit {| Kind := STRING; Value := quoted "v" |}])])
       ("Msg", [BasicLit {| Kind := STRING; Value := quoted "m" |}]))
    {| Before := NoSpace; Start := []; End_ := []; After := NoSpace |}.

(** ** The traversal as pure functions *)

(** What the first pass records at the position [p] below a node: the
    replacement of the node found there, provided no node on the way to
    it was replaced. *)
Fixpoint recorded (node : Node) (p : list nat) {struct p} : option Node :=
  match replacementOf node, p with
  | Returns (Some new), [] => Some new
  | Returns None, i :: p' =>
      match children node !! i with
      | Some c => recorded c p'
      | None => None
      end
  | _, _ => None
  end.

(** The tree rewritten in one pass: a node the statement matcher replaces
    becomes its replacement, any other node keeps its shape over its
    rewritten children. *)
Fixpoint rewriteTree (node : Node) : Node :=
  match replacementOf node with
  | Returns (Some new) => new
  | Returns None =>
      match node with
      | Ident _ | BasicLit _ | ImportSpec _ _ _ => node
      | SelectorExpr X Sel => SelectorExpr (rewriteTree X) Sel
      | ExprStmt X Decs => ExprStmt (rewriteTree X) Decs
      | CallExpr Fun Args => CallExpr (rewriteTree Fun) (map rewriteTree Args)
      | OtherNode kind children => OtherNode kind (map rewriteTree children)
      end
  | Panics _ => node
  end.

(** [chain.Msg()] or [chain.Msgf()] without arguments, as a statement. *)
Definition bareMsg (node : Node) : bool :=
  match node with
  | ExprStmt (CallExpr (SelectorExpr (CallExpr _ _) termFunc) []) _ =>
      oneOf termFunc ["Msg"; "Msgf"]
  | _ => false
  end.

(** No such statement anywhere in the tree. *)
Fixpoint noBareMsg (node : Node) : bool :=
  negb (bareMsg node) &&
  match node with
  | Ident _ | BasicLit _ | ImportSpec _ _ _ => true
  | SelectorExpr X _ => noBareMsg X
  | ExprStmt X _ => noBareMsg X
  | CallExpr Fun Args => noBareMsg Fun && forallb noBareMsg Args
  | OtherNode _ children => forallb noBareMsg children
  end.

(** [Walk] at a node adds to the map what [recorded] says and keeps
    every other entry. *)
Definition recordsExactly (node : Node) : Prop :=
  forall v id v1, Walk v id node = Returns v1 ->
  forall p,
    Replacements v1 !! (id ++ p)
    = match recorded node p with
      | Some new => Some new
      | None => Replacements v !! (id ++ p)
      end.

(** ** [processFile] and [replaceAndPrintDST] *)

(** The file system and the standard output [processFile] acts on. *)
Record World := {
  files : gmap string string;
  stdout : list string
}.

(** One call of the function handed to [filepath.Walk]: a path, whether
    it is a directory, and the error met on the way to it. *)
Definition WalkEntry : Type := string * bool * option string.

(** Modelled from the spec: the collaborators the engine is handed
    (parse, decorate, serialize), the failure of the file write and the
    entries the directory walk hands out, none of which is among the
    sources; [inl] is a result, [inr] or [Some] an error. [ParseFile]
    reads the named file from the file system. *)
Record Externals := {
  Ast : Type;
  ParseFile : gmap string string -> string -> Ast + string;
  DecorateFile : Ast -> Node + string;
  Fprint : Node -> string + string;
  WriteFile_error : gmap string string -> string -> option string;
  WalkDir : gmap string string -> string -> list WalkEntry
}.

Definition nl : string := String "010"%char EmptyString.

(** [fmt.Print]: one more piece of text on the standard output. *)
Definition printOut (w : World) (s : string) : World :=
  {| files := files w; stdout := stdout w ++ [s] |}.

(** [os.WriteFile]: when it does not fail, the named file holds the new
    content and no other file is touched. *)
Definition WriteFile (E : Externals) (w : World) (filename content : string)
  : World + string :=
  match WriteFile_error E (files w) filename with
  | Some err => inr err
  | None => inl {| files := <[filename := content]> (files w); stdout := stdout w |}
  end.

Definition replaceAndPrintDST (E : Externals) (fileNode : Node)
    (replacements : gmap NodeId Node) : string + string :=
  Fprint E (Apply replacements [] fileNode).

(** The returned [error] is [None] for nil. *)
Definition processFile (E : Externals) (w : World) (filename : string)
    (replace : bool) : outcome (World * option string) :=
  match ParseFile E (files w) filename with
  | inr err => Returns (w, Some ("parsing failed: " +:+ err))
  | inl a =>
      match DecorateFile E a with
      | inr err => Returns (w, Some ("decorating ast failed: " +:+ err))
      | inl node =>
          v ← Walk newVisitor [] node;
          if Nat.eqb (size (Replacements v)) 0
          then Returns (printOut w ("  ✅ No zerolog calls found to transform." +:+ nl), None)
          else
            let w := printOut w ("  ✨ Transformed " +:+ pretty (size (Replacements v))
                               +:+ " calls." +:+ nl) in
            match replaceAndPrintDST E node (Replacements v) with
            | inr err =>
                Returns (w, Some ("failed to generate new file content: " +:+ err))
            | inl newContent =>
                if negb replace then
                  let w := printOut w ("---- start converted file: " +:+ filename
                                     +:+ " ----" +:+ nl) in
                  let w := printOut w newContent in
                  let w := printOut w ("---- end converted file: " +:+ filename
                                     +:+ " ----" +:+ nl) in
                  let w := printOut w ("  📝 File displayed with converted code." +:+ nl) in
                  Returns (w, None)
                else
                  match WriteFile E w filename newContent with
                  | inr err => Returns (w, Some ("failed to write file: " +:+ err))
                  | inl w =>
                      Returns (printOut w ("  📝 File successfully overwritten with converted code."
                                         +:+ nl),
                               None)
                  end
            end
      end
  end.

(** Collaborators and a file system to run [processFile] on: [a.go]
    parses to [fileFlat], [b.go] to a file without anything to replace. *)
Definition toyExternals : Externals := {|
  Ast := Node;
  ParseFile := fun fs name =>
    match fs !! name with
    | Some src =>
        if String.eqb src "flat" then inl fileFlat
        else if String.eqb src "plain" then inl (funcDecl "main" [stmtFieldLogger])
        else inr "syntax error"
    | None => inr "no such file"
    end;
  DecorateFile := inl;
  Fprint := fun n => inl (if matchFree n then "converted" else "unconverted");
  WriteFile_error := fun _ _ => None;
  WalkDir := fun _ dir =>
    [(dir, true, None); (dir +:+ "/a.go", false, None);
     (dir +:+ "/notes.txt", false, None); (dir +:+ "/b.go", false, None)]
|}.

Definition toyWorld : World :=
  {| files := {[ "a.go" := "flat"; "b.go" := "plain" ]}; stdout := [] |}.

(** The directory [src] that [WalkDir] of [toyExternals] lists. *)
Definition toyTree : World :=
  {| files := {[ "src/a.go" := "flat"; "src/notes.txt" := "flat"; "src/b.go" := "plain" ]};
     stdout := [] |}.

(** ** [main] *)

(** [filepath.Ext] where the path separator is the slash: the suffix of
    the last path element from its last dot on, empty without a dot.
    [extRev] scans the reversed path. *)
Fixpoint extRev (revPath : list ascii) (acc : list ascii) : list ascii :=
  match revPath with
  | [] => []
  | c :: r =>
      if Ascii.eqb c "/" then []
      else if Ascii.eqb c "." then c :: acc
      else extRev r (c :: acc)
  end.

Definition Ext (path : string) : string :=
  string_of_list_ascii (extRev (rev (list_ascii_of_string path)) []).

(** The function [main] hands to [filepath.Walk]. *)
Definition walkFn (E : Externals) (replace : bool) (w : World) (entry : WalkEntry)
  : outcome (World * option string) :=
  let '(path, isDir, err) := entry in
  match err with
  | Some e => Returns (w, Some e)
  | None =>
      if isDir || negb (String.eqb (Ext path) ".go") then Returns (w, None)
      else
        let w := printOut w ("Processing file: " +:+ path +:+ nl) in
        r ← processFile E w path replace;
        match r.2 with
        | Some e =>
            Returns (printOut r.1 ("  ❌ Failed to process " +:+ path +:+ ": " +:+ e +:+ nl),
                     None)
        | None => Returns (r.1, None)
        end
  end.

(** [filepath.Walk]: the entries in order, until the function returns an
    error. *)
Fixpoint walkEntries (E : Externals) (replace : bool) (w : World)
    (entries : list WalkEntry) : outcome (World * option string) :=
  match entries with
  | [] => Returns (w, None)
  | entry :: rest =>
      r ← walkFn E replace w entry;
      match r.2 with
      | Some e => Returns (r.1, Some e)
      | None => walkEntries E replace r.1 rest
      end
  end.

(** How [main] ends: by returning, or in [log.Fatal]. *)
Inductive Exit :=
| Done
| Fatal (msg : string).

Definition main (E : Externals) (w : World) (dirPath : string) (replace : bool)
  : outcome (World * Exit) :=
  if String.eqb dirPath EmptyString
  then Returns (w, Fatal "Error: Please specify a target directory using the -dir flag.")
  else
    let w := printOut w ("--- Zerolog to slog.LogAttrs Transformer (using DST) ---" +:+ nl) in
    let w := printOut w ("Mode: " +:+ (if replace then "Overwrite Files"
                                       else "Dry Run (no file changes)") +:+ nl) in
    let w := printOut w ("Target Directory: " +:+ dirPath +:+ nl +:+ nl) in
    r ← walkEntries E replace w (WalkDir E (files w) dirPath);
    match r.2 with
    | Some e => Returns (r.1, Fatal ("Error during directory traversal: " +:+ e))
    | None => Returns (printOut r.1 (nl +:+ "--- Transformation Complete ---" +:+ nl), Done)
    end.

(** ** Positions and decorated nodes *)

(** The node at a position below a node. *)
Fixpoint nodeAt (node : Node) (p : list nat) {struct p} : option Node :=
  match p with
  | [] => Some node
  | i :: p' =>
      match children node !! i with
      | Some c => nodeAt c p'
      | None => None
      end
  end.

(** The nodes of a tree that carry decorations in this model, statements
    and imports, the root included. *)
Fixpoint decorated (node : Node) : list Node :=
  match node with
  | Ident _ | BasicLit _ => []
  | ImportSpec _ _ _ => [node]
  | SelectorExpr X _ => decorated X
  | ExprStmt X _ => node :: decorated X
  | CallExpr Fun Args => decorated Fun ++ flat_map decorated Args
  | OtherNode _ children => flat_map decorated children
  end.

Definition comment (text : string) : NodeDecs :=
  {| Before := NewLine; Start := [text]; End_ := []; After := NewLine |}.

(** A commented zerolog import; in [main] a commented chain statement, a
    commented call that is no chain, and a call of a function literal
    that holds a commented chain statement; then a chain statement with
    a commented statement inside a function literal among its
    arguments. *)
Definition fileDecorated : Node :=
  OtherNode "File"
    [Ident "main";
     OtherNode "GenDecl"
       [ImportSpec (Some "zl")
          {| Kind := STRING; Value := zerologImport |} (comment "// logging")];
     OtherNode "FuncDecl"
       [Ident "main"; OtherNode "FuncType" [];
        OtherNode "BlockStmt"
          [chainStmt "log" ("Debug", []) []
             ("Msg", [BasicLit {| Kind := STRING; Value := quoted "Debug event" |}])
             (comment "// Zerolog Debug call");
           ExprStmt
             (CallExpr (SelectorExpr (Ident "fmt") "Println")
                [BasicLit {| Kind := STRING; Value := quoted "regular" |}])
             (comment "// A call that should be ignored");
           ExprStmt
             (CallExpr
                (OtherNode "FuncLit"
                   [OtherNode "FuncType" [];
                    OtherNode "BlockStmt"
                      [chainStmt "log" ("Info", []) []
                         ("Msg", [BasicLit {| Kind := STRING; Value := quoted "nested" |}])
                         (comment "// in a closure")]])
                [])
             (comment "// call of a closure");
           chainStmt "log" ("Info", [])
             [("Str",
               [BasicLit {| Kind := STRING; Value := quoted "k" |};
                CallExpr
                  (OtherNode "FuncLit"
                     [OtherNode "FuncType" [];
                      OtherNode "BlockStmt"
                        [ExprStmt (CallExpr (Ident "tick") [])
                           (comment "// carried over")]])
                  []])]
             ("Msg", [BasicLit {| Kind := STRING; Value := quoted "outer" |}])
             (comment "// outer")]]].

(** Collaborators for a directory [src] whose first file does not parse,
    and for a directory that cannot be read. *)
Definition toyExternalsBroken : Externals := {|
  Ast := Node;
  ParseFile := fun fs name =>
    match fs !! name with
    | Some src => if String.eqb src "flat" then inl fileFlat else inr "syntax error"
    | None => inr "no such file"
    end;
  DecorateFile := inl;
  Fprint := fun n => inl (if matchFree n then "converted" else "unconverted");
  WriteFile_error := fun _ _ => None;
  WalkDir := fun _ dir =>
    if String.eqb dir "src"
    then [(dir, true, None); (dir +:+ "/bad.go", false, None);
          (dir +:+ "/a.go", false, None)]
    else [(dir, false, Some "no such directory")]
|}.

Definition toyBroken : World :=
  {| files := {[ "src/bad.go" := "broken"; "src/a.go" := "flat" ]}; stdout := [] |}.

(** [log.Info().Str("k", func() { x.Info().Msg() }()).Msg("outer")] in
    [main]: the statement inside the function literal would make the
    statement matcher panic, were it visited. *)
Definition filePanicInside : Node :=
  OtherNode "File"
    [Ident "main";
     OtherNode "FuncDecl"
       [Ident "main"; OtherNode "FuncType" [];
        OtherNode "BlockStmt"
          [chainStmt "log" ("Info", [])
             [("Str",
               [BasicLit {| Kind := STRING; Value := quoted "k" |};
                CallExpr
                  (OtherNode "FuncLit"
                     [OtherNode "FuncType" [];
                      OtherNode "BlockStmt" [stmtMsgNoArgs]])
                  []])]
             ("Msg", [BasicLit {| Kind := STRING; Value := quoted "outer" |}])
             {| Before := NoSpace; Start := []; End_ := []; After := NoSpace |}]]].

(** * Properties *)

(** ** The level table *)

Lemma logLevels_lookup (name : string) :
  logLevels !! name =
    if String.eqb name "Trace" then Some "slog.LevelTrace"
    else if String.eqb name "Debug" then Some "slog.LevelDebug"
    else if String.eqb name "Info" then Some "slog.LevelInfo"
    else if String.eqb name "Warn" then Some "slog.LevelWarn"
    else if String.eqb name "Error" then Some "slog.LevelError"
    else if String.eqb name "Fatal" then Some "slog.LevelError"
    else if String.eqb name "Panic" then Some "slog.LevelError"
    else None.
Proof.
  unfold logLevels. cbn [list_to_map foldr uncurry fst snd].
  repeat (rewrite lookup_insert;
          match goal with
          | |- context [decide (?s = name)] =>
              destruct (String.eqb_spec name s) as [->|?];
              [ rewrite decide_True by reflexivity; reflexivity
              | rewrite decide_False by congruence ]
          end).
  apply lookup_empty.
Qed.

Lemma isLoggerLevel_oneOf (name : string) :
  isLoggerLevel name = oneOf name levelNames.
Proof.
  unfold isLoggerLevel, oneOf, levelNames. rewrite logLevels_lookup. cbn [existsb].
  repeat (destruct (String.eqb name _); [reflexivity|]). reflexivity.
Qed.

(** ** Severity mapping *)

(** The flat call is always built: neither index into the split level
    constant fails. *)
Lemma buildSlogLogAttrsCall_returns (levelStr : string) (message : Node)
    (slogAttrs : list Node) :
  buildSlogLogAttrsCall levelStr message slogAttrs =
    Returns (slogLogAttrs
      (Ident "ctx" :: SelectorExpr (Ident "slog") (severityTarget levelStr)
         :: message :: slogAttrs)).
Proof.
  unfold buildSlogLogAttrsCall, severityTarget, oneOf.
  rewrite logLevels_lookup. cbn [existsb].
  repeat (match goal with
          | |- context [String.eqb levelStr ?s] =>
              destruct (String.eqb_spec levelStr s) as [->|?]; [reflexivity|]
          end).
  reflexivity.
Qed.

(** C5: the level argument of the replacement call is [slog.<target>]
    for a target that is total in the level string: the same-named
    constant for Trace, Debug, Info, Warn and Error, [LevelError] for
    Fatal and Panic, and [LevelInfo] for every other string. *)
Theorem severity_mapping_total (levelStr : string) (message : Node)
    (slogAttrs : list Node) :
  exists target,
    buildSlogLogAttrsCall levelStr message slogAttrs =
      Returns (slogLogAttrs
        (Ident "ctx" :: SelectorExpr (Ident "slog") target :: message :: slogAttrs)) /\
    target =
      (if String.eqb levelStr "Trace" then "LevelTrace"
       else if String.eqb levelStr "Debug" then "LevelDebug"
       else if String.eqb levelStr "Info" then "LevelInfo"
       else if String.eqb levelStr "Warn" then "LevelWarn"
       else if String.eqb levelStr "Error" then "LevelError"
       else if String.eqb levelStr "Fatal" then "LevelError"
       else if String.eqb levelStr "Panic" then "LevelError"
       else "LevelInfo").
Proof.
  exists (severityTarget levelStr). split.
  - apply buildSlogLogAttrsCall_returns.
  - unfold severityTarget, oneOf. cbn [existsb].
    repeat (match goal with
            | |- context [String.eqb levelStr ?s] =>
                destruct (String.eqb_spec levelStr s) as [->|?]; [reflexivity|]
            end).
    reflexivity.
Qed.

(** ** The field mapper on [Err] *)

(** C3 (amended): whatever the number of arguments, [Err] is mapped to
    an [Any] call whose arguments are the literal key "err" followed by
    all the arguments given; with exactly one argument [e] this is
    [slog.Any("err", e)]. *)
Theorem Err_any_arity (args : list Node) :
  convertFieldToSlogAttr "Err" args = Some (slogCall "Any" (errKey :: args)).
Proof. reflexivity. Qed.

(** C3 (as stated, refuted): [Err] with no argument and [Err] with two
    arguments are not rejected. *)
Lemma Err_arity_counterexample :
  convertFieldToSlogAttr "Err" [] = Some (slogCall "Any" [errKey]) /\
  convertFieldToSlogAttr "Err" [Ident "a"; Ident "b"]
    = Some (slogCall "Any" [errKey; Ident "a"; Ident "b"]).
Proof. split; reflexivity. Qed.

(** ** The chain loop *)

(** Case analysis and induction along the loop: one case per way an
    iteration ends. *)
Lemma chainLoop_elim (message : option Node)
    (P : Node -> list Node -> Extracted -> Prop) :
  (forall current acc,
      (forall X f a, current <> CallExpr (SelectorExpr X f) a) ->
      P current acc noMatch) ->
  (forall root f a acc, isLoggerLevel f = true ->
      P (CallExpr (SelectorExpr (Ident root) f) a) acc (f, message, acc)) ->
  (forall X f a acc, isLoggerLevel f = true -> (forall root, X <> Ident root) ->
      P (CallExpr (SelectorExpr X f) a) acc noMatch) ->
  (forall X f a acc, isLoggerLevel f = false ->
      P X (pushAttr f a acc) (chainLoop message X (pushAttr f a acc)) ->
      P (CallExpr (SelectorExpr X f) a) acc (chainLoop message X (pushAttr f a acc))) ->
  forall current acc, P current acc (chainLoop message current acc).
Proof.
  intros Hshape Hroot Hbad Hlink.
  fix IH 1. intros current acc.
  destruct current as [n|l|X s|Fun Args|X D|N Pth D|k ch];
    try (apply Hshape; intros; discriminate).
  destruct Fun as [n|l|X f|Fun' Args'|X D|N Pth D|k ch];
    try (apply Hshape; intros; discriminate).
  cbn [chainLoop]. destruct (isLoggerLevel f) eqn:Hlvl.
  - destruct X; try (apply Hbad; [assumption | intros; discriminate]).
    apply Hroot. assumption.
  - apply Hlink; [assumption|]. apply IH.
Qed.

(** The loop either fails with the all-empty triple or ends at a level
    call and hands back the message it was given. *)
Lemma chainLoop_result (message : option Node) (current : Node) (acc : list Node) :
  chainLoop message current acc = noMatch \/
  exists level slogAttrs,
    chainLoop message current acc = (level, message, slogAttrs) /\
    isLoggerLevel level = true.
Proof.
  revert current acc.
  apply (chainLoop_elim message
           (fun _ _ r => r = noMatch \/
              exists level slogAttrs, r = (level, message, slogAttrs) /\
                                      isLoggerLevel level = true)).
  - intros; left; reflexivity.
  - intros root f a acc Hlvl. right. exists f, acc. split; [reflexivity|assumption].
  - intros; left; reflexivity.
  - intros X f a acc _ IH. exact IH.
Qed.

(** C9: every return of the chain extractor is either the failure
    triple (empty level, nil message, nil field list) or a success with
    a non-nil message and a level of the enumerated set, so the test
    "message is nil" tells the two apart; the only other outcome is the
    index panic of a message terminator without arguments. *)
Theorem extract_failure_atomic (currentCall : Node) (termFunc : string)
    (termArgs : list Node) :
  match extractZerologChain currentCall termFunc termArgs with
  | Returns (level, message, slogAttrs) =>
      (message = None /\ level = EmptyString /\ slogAttrs = []) \/
      (is_Some message /\ isLoggerLevel level = true /\ In level levelNames)
  | Panics _ => oneOf termFunc ["Msg"; "Msgf"] = true /\ termArgs = []
  end.
Proof.
  unfold extractZerologChain.
  assert (Hres : forall m,
    match chainLoop (Some m) currentCall [] with
    | (level, message, slogAttrs) =>
        (message = None /\ level = EmptyString /\ slogAttrs = []) \/
        (is_Some message /\ isLoggerLevel level = true /\ In level levelNames)
    end).
  { intros m. destruct (chainLoop_result (Some m) currentCall []) as [->|(l & a & -> & Hl)].
    - left. repeat split; reflexivity.
    - right. split; [eexists; reflexivity|]. split; [assumption|].
      rewrite isLoggerLevel_oneOf in Hl. unfold oneOf in Hl.
      apply existsb_exists in Hl as (x & Hin & Heq).
      apply String.eqb_eq in Heq. subst. assumption. }
  destruct (oneOf termFunc ["Msg"; "Msgf"]) eqn:Hterm.
  - destruct termArgs as [|a0 rest]; cbn.
    + split; reflexivity.
    + apply Hres.
  - cbn. apply Hres.
Qed.

(** ** Chains built link by link *)

Lemma mkChain_snoc (root : string) (level : Link) (fields : list Link) (l : Link) :
  mkChain root level (fields ++ [l]) = addLink (mkChain root level fields) l.
Proof. unfold mkChain. rewrite foldl_app. reflexivity. Qed.

Lemma mkChain_is_call (root : string) (level : Link) (fields : list Link) :
  exists Fun Args, mkChain root level fields = CallExpr Fun Args.
Proof.
  destruct fields as [|l fields _] using rev_ind.
  - eexists _, _. reflexivity.
  - rewrite mkChain_snoc. eexists _, _. reflexivity.
Qed.

(** The loop walks a well-formed chain down to its level call and
    collects the conversions of the recognized links in source order;
    links the field mapper rejects leave no trace. *)
Lemma chainLoop_mkChain (message : option Node) (root : string) (level : Link)
    (fields : list Link) (acc : list Node) :
  isLoggerLevel level.1 = true ->
  Forall (fun l : Link => isLoggerLevel l.1 = false) fields ->
  chainLoop message (mkChain root level fields) acc
    = (level.1, message, omap convertLink fields ++ acc).
Proof.
  intros Hlvl. revert acc.
  induction fields as [|l fields IH] using rev_ind; intros acc Hfields.
  - destruct level as [f a]. cbn in *. rewrite Hlvl. reflexivity.
  - apply Forall_app in Hfields as [Hfields Hl].
    apply Forall_cons in Hl as [Hl _].
    rewrite mkChain_snoc. destruct l as [f a]. cbn in Hl.
    cbn [addLink chainLoop fst snd]. rewrite Hl.
    change (match convertFieldToSlogAttr f a with
            | Some attrCall => attrCall :: acc
            | None => acc
            end) with (pushAttr f a acc).
    rewrite IH by assumption.
    rewrite omap_app, <- app_assoc. f_equal. f_equal.
    unfold pushAttr. cbn. unfold convertLink. cbn.
    destruct (convertFieldToSlogAttr f a); reflexivity.
Qed.

(** The statement matcher on a well-formed chain statement. *)
Lemma visitExprStmt_chain (root : string) (level : Link) (fields : list Link)
    (term : Link) (message : Node) (Decs : NodeDecs) :
  isLoggerLevel level.1 = true ->
  Forall (fun l : Link => isLoggerLevel l.1 = false) fields ->
  isTerminator term.1 = true ->
  messageOf term.1 term.2 = Some message ->
  visitExprStmt (addLink (mkChain root level fields) term) Decs
    = Returns (Some (flatStmt level.1 message (omap convertLink fields) Decs)).
Proof.
  intros Hlvl Hfields Hterm Hmsg.
  destruct term as [termFunc termArgs]. cbn [fst snd] in Hterm, Hmsg.
  unfold isTerminator in Hterm.
  unfold visitExprStmt, addLink at 1. cbn [fst snd]. rewrite Hterm. cbn [negb].
  destruct (mkChain_is_call root level fields) as (Fun & Args & Hcall).
  assert (Hextract :
    extractZerologChain (mkChain root level fields) termFunc termArgs
      = Returns (level.1, Some message, omap convertLink fields)).
  { unfold extractZerologChain, messageOf in *.
    destruct (oneOf termFunc ["Msg"; "Msgf"]).
    - unfold index. rewrite Hmsg. cbn.
      rewrite chainLoop_mkChain by assumption. rewrite app_nil_r. reflexivity.
    - injection Hmsg as <-. cbn.
      rewrite chainLoop_mkChain by assumption. rewrite app_nil_r. reflexivity. }
  rewrite Hcall in *. rewrite Hextract. cbn.
  rewrite buildSlogLogAttrsCall_returns. reflexivity.
Qed.

(** ** [Visit] *)

Lemma Visit_replacementOf (v : RewriteVisitor) (id : NodeId) (node : Node) :
  Visit v id node =
    r ← replacementOf node;
    Returns (match r with
             | Some new => (record v id new, false)
             | None => (v, true)
             end).
Proof.
  destruct node; try reflexivity.
  - cbn. destruct (visitExprStmt _ _) as [[new|]|]; reflexivity.
  - cbn. destruct (String.eqb _ _); reflexivity.
Qed.

Lemma Visit_chainStmt (v : RewriteVisitor) (id : NodeId) (root : string)
    (level : Link) (fields : list Link) (term : Link) (message : Node)
    (Decs : NodeDecs) :
  isLoggerLevel level.1 = true ->
  Forall (fun l : Link => isLoggerLevel l.1 = false) fields ->
  isTerminator term.1 = true ->
  messageOf term.1 term.2 = Some message ->
  Visit v id (chainStmt root level fields term Decs)
    = Returns (record v id (flatStmt level.1 message (omap convertLink fields) Decs),
               false).
Proof.
  intros. rewrite Visit_replacementOf. unfold chainStmt. cbn [replacementOf].
  erewrite visitExprStmt_chain by eassumption. reflexivity.
Qed.

(** ** Unrecognized field links *)

(** C1 (as stated, refuted): in [log.Info().Str("k", "v").Foo(x).Msg("m")]
    the field mapper rejects [Foo(x)], yet the chain extractor succeeds
    and the statement is replaced by a call that keeps [Str] and has lost
    [Foo]. *)
Lemma unrecognized_field_counterexample :
  convertFieldToSlogAttr "Foo" [Ident "x"] = None /\
  extractZerologChain
      (mkChain "log" ("Info", []) [("Str", [lit "k"; lit "v"]); ("Foo", [Ident "x"])])
      "Msg" [lit "m"]
    = Returns ("Info", Some (lit "m"), [slogCall "String" [lit "k"; lit "v"]]) /\
  Visit newVisitor [0] stmtUnknownField
    = Returns (record newVisitor [0]
                 (flatStmt "Info" (lit "m") [slogCall "String" [lit "k"; lit "v"]] noDecs),
               false) /\
  Apply (Replacements (record newVisitor [0]
           (flatStmt "Info" (lit "m") [slogCall "String" [lit "k"; lit "v"]] noDecs)))
        [0] stmtUnknownField
    <> stmtUnknownField.
Proof.
  split; [reflexivity|]. split; [reflexivity|]. split; [reflexivity|].
  vm_compute. discriminate.
Qed.

(** C1 (amended): in a chain on an identifier with a level call, field
    links none of which is named like a level, and a terminator that has
    its message, a field link that the field mapper rejects is skipped
    and the walk goes on: the statement is replaced by the flat call
    whose field list holds the conversions of the other links in their
    order, the same replacement as for the chain without that link. *)
Theorem unrecognized_field_dropped (v : RewriteVisitor) (id : NodeId)
    (root : string) (level : Link) (before after : list Link) (name : string)
    (args : list Node) (term : Link) (message : Node) (Decs : NodeDecs) :
  isLoggerLevel level.1 = true ->
  Forall (fun l : Link => isLoggerLevel l.1 = false) (before ++ after) ->
  isLoggerLevel name = false ->
  convertFieldToSlogAttr name args = None ->
  isTerminator term.1 = true ->
  messageOf term.1 term.2 = Some message ->
  Visit v id (chainStmt root level (before ++ (name, args) :: after) term Decs)
    = Returns (record v id
                 (flatStmt level.1 message (omap convertLink (before ++ after)) Decs),
               false) /\
  Visit v id (chainStmt root level (before ++ (name, args) :: after) term Decs)
    = Visit v id (chainStmt root level (before ++ after) term Decs).
Proof.
  intros Hlvl Hfields Hname Hnone Hterm Hmsg.
  apply Forall_app in Hfields as [Hb Ha].
  assert (Hall : Forall (fun l : Link => isLoggerLevel l.1 = false)
                   (before ++ (name, args) :: after)).
  { apply Forall_app. split; [assumption|]. constructor; assumption. }
  assert (Homap : omap convertLink (before ++ (name, args) :: after)
                  = omap convertLink (before ++ after)).
  { rewrite !omap_app. f_equal. cbn. unfold convertLink at 1. cbn.
    rewrite Hnone. reflexivity. }
  rewrite (Visit_chainStmt v id root level _ term message Decs) by assumption.
  rewrite Homap. split; [reflexivity|].
  rewrite (Visit_chainStmt v id root level (before ++ after) term message Decs);
    [reflexivity|assumption| |assumption|assumption].
  apply Forall_app. split; assumption.
Qed.

Lemma unrecognized_field_dropped_witness :
  Visit newVisitor [0] stmtUnknownField
    = Returns (record newVisitor [0]
                 (flatStmt "Info" (lit "m")
                    (omap convertLink ([("Str", [lit "k"; lit "v"])] ++ [])) noDecs),
               false) /\
  Visit newVisitor [0] stmtUnknownField
    = Visit newVisitor [0]
        (chainStmt "log" ("Info", []) ([("Str", [lit "k"; lit "v"])] ++ [])
           ("Msg", [lit "m"]) noDecs).
Proof.
  apply (unrecognized_field_dropped newVisitor [0] "log" ("Info", [])
           [("Str", [lit "k"; lit "v"])] [] "Foo" [Ident "x"]
           ("Msg", [lit "m"]) (lit "m") noDecs).
  - reflexivity.
  - repeat constructor.
  - reflexivity.
  - reflexivity.
  - reflexivity.
  - reflexivity.
Defined.

(** ** Order of the fields *)

(** C4: when every field link [F1 ... Fn] of a convertible chain is
    recognized, with conversions [C1 ... Cn], the replacement call's
    arguments are the context, the level, the message and then
    [C1 ... Cn] in that order. *)
Theorem field_order_preserved (v : RewriteVisitor) (id : NodeId) (root : string)
    (level : Link) (fields : list Link) (converted : list Node) (term : Link)
    (message : Node) (Decs : NodeDecs) :
  isLoggerLevel level.1 = true ->
  Forall2 (fun (F : Link) (C : Node) =>
             isLoggerLevel F.1 = false /\ convertFieldToSlogAttr F.1 F.2 = Some C)
          fields converted ->
  isTerminator term.1 = true ->
  messageOf term.1 term.2 = Some message ->
  Visit v id (chainStmt root level fields term Decs)
    = Returns (record v id
                 (ExprStmt
                    (slogLogAttrs
                       ([Ident "ctx"; SelectorExpr (Ident "slog") (severityTarget level.1);
                         message] ++ converted))
                    Decs),
               false).
Proof.
  intros Hlvl Hconv Hterm Hmsg.
  assert (Hfields : Forall (fun l : Link => isLoggerLevel l.1 = false) fields).
  { induction Hconv as [|F C fs cs [HF _] _ IH]; constructor; assumption. }
  assert (Homap : omap convertLink fields = converted).
  { clear Hfields. induction Hconv as [|F C fs cs [_ HC] _ IH]; [reflexivity|].
    cbn. unfold convertLink at 1. rewrite HC. cbn. f_equal. exact IH. }
  rewrite (Visit_chainStmt v id root level fields term message Decs) by assumption.
  rewrite Homap. reflexivity.
Qed.

Lemma field_order_preserved_witness :
  Visit newVisitor [2; 0]
    (chainStmt "log" ("Debug", [])
       [("Int", [lit "num"; Ident "n"]); ("Bool", [lit "active"; Ident "true"])]
       ("Msg", [lit "debugging"]) noDecs)
  = Returns (record newVisitor [2; 0]
               (ExprStmt
                  (slogLogAttrs
                     ([Ident "ctx"; SelectorExpr (Ident "slog") (severityTarget "Debug");
                       lit "debugging"]
                      ++ [slogCall "Int" [lit "num"; Ident "n"];
                          slogCall "Bool" [lit "active"; Ident "true"]]))
                  noDecs),
             false).
Proof.
  apply (field_order_preserved newVisitor [2; 0] "log" ("Debug", [])
           [("Int", [lit "num"; Ident "n"]); ("Bool", [lit "active"; Ident "true"])]
           [slogCall "Int" [lit "num"; Ident "n"];
            slogCall "Bool" [lit "active"; Ident "true"]]
           ("Msg", [lit "debugging"]) (lit "debugging") noDecs).
  - reflexivity.
  - repeat constructor.
  - reflexivity.
  - reflexivity.
Defined.

(** ** The root identifier and the imports *)






(** A file that does not import zerolog: the chain on [myLogger] is
    replaced all the same, and nothing else is. *)
Example no_import_still_converted :
  exists v out,
    transform fileNoImport = Returns (v, out) /\
    Replacements v
      = {[ [2; 2; 0] :=
             flatStmt "Warn" defaultMessage [slogCall "String" [lit "k"; lit "v"]] noDecs ]} /\
    out = OtherNode "File"
            [Ident "main"; importDecl ["fmt"];
             funcDecl "main"
               [flatStmt "Warn" defaultMessage [slogCall "String" [lit "k"; lit "v"]]
                  noDecs]].
Proof.
  eexists _, _. split; [vm_compute; reflexivity|]. split; vm_compute; reflexivity.
Qed.

(** ** Message resolution *)

(** The chain extractor on a well-formed chain whose terminator has its
    message. *)
Lemma extractZerologChain_chain (root : string) (level : Link) (fields : list Link)
    (termFunc : string) (termArgs : list Node) (message : Node) :
  isLoggerLevel level.1 = true ->
  Forall (fun l : Link => isLoggerLevel l.1 = false) fields ->
  messageOf termFunc termArgs = Some message ->
  extractZerologChain (mkChain root level fields) termFunc termArgs
    = Returns (level.1, Some message, omap convertLink fields).
Proof.
  intros Hlvl Hfields Hmsg. unfold extractZerologChain, messageOf in *.
  destruct (oneOf termFunc ["Msg"; "Msgf"]).
  - unfold index. rewrite Hmsg. cbn [mbind outcome_bind].
    rewrite chainLoop_mkChain by assumption. rewrite app_nil_r. reflexivity.
  - injection Hmsg as <-. cbn [mbind outcome_bind].
    rewrite chainLoop_mkChain by assumption. rewrite app_nil_r. reflexivity.
Qed.

(** What a replaced expression statement says about its message,
    whatever the chain. *)
Lemma replaced_statement_message (chainHead : Node) (termFunc : string)
    (termArgs : list Node) (Decs : NodeDecs) (new : Node) :
  visitExprStmt (CallExpr (SelectorExpr chainHead termFunc) termArgs) Decs
    = Returns (Some new) ->
  exists message level attrs,
    extractZerologChain chainHead termFunc termArgs
      = Returns (level, Some message, attrs) /\
    (oneOf termFunc ["Msg"; "Msgf"] = true -> termArgs !! 0 = Some message) /\
    (termFunc = "Send" -> message = defaultMessage) /\
    new = flatStmt level message attrs Decs /\
    forall trailing,
      visitExprStmt
          (CallExpr (SelectorExpr chainHead termFunc) (take 1 termArgs ++ trailing)) Decs
        = Returns (Some new).
Proof.
  unfold visitExprStmt.
  destruct (negb (oneOf termFunc ["Msg"; "Msgf"; "Send"])) eqn:Hterm; [discriminate|].
  destruct chainHead as [| | |Fun Args| | |]; try discriminate.
  unfold extractZerologChain.
  destruct (oneOf termFunc ["Msg"; "Msgf"]) eqn:Hmsgf.
  - destruct termArgs as [|a0 rest]; [discriminate|].
    cbn [index lookup list_lookup mbind outcome_bind take app].
    destruct (chainLoop_result (Some a0) (CallExpr Fun Args) [])
      as [Hfail|(level & attrs & Hok & _)].
    + rewrite Hfail. discriminate.
    + rewrite Hok. rewrite buildSlogLogAttrsCall_returns.
      cbn [mbind outcome_bind]. intros [= <-].
      exists a0, level, attrs. repeat split; try reflexivity.
      intros ->. discriminate.
  - cbn [mbind outcome_bind].
    destruct (chainLoop_result (Some defaultMessage) (CallExpr Fun Args) [])
      as [Hfail|(level & attrs & Hok & _)].
    + rewrite Hfail. discriminate.
    + rewrite Hok. rewrite buildSlogLogAttrsCall_returns.
      cbn [mbind outcome_bind]. intros [= <-].
      exists defaultMessage, level, attrs. repeat split; try reflexivity.
      discriminate.
Qed.

(** C6: on a chain with a level call on an identifier and field links
    none of which is named like a level, the chain extractor succeeds
    for [Msg] and [Msgf] with the terminator's first argument as the
    message, whatever follows it, and for [Send] with the fixed literal
    "zerolog event", whatever its arguments; the statement is replaced by
    the flat call with that message, in which the trailing arguments do
    not occur. Whenever any expression statement is replaced, its
    message is resolved in this way. *)
Theorem message_resolution (root : string) (level : Link) (fields : list Link)
    (Decs : NodeDecs) :
  isLoggerLevel level.1 = true ->
  Forall (fun l : Link => isLoggerLevel l.1 = false) fields ->
  (forall termFunc a0 trailing,
      oneOf termFunc ["Msg"; "Msgf"] = true ->
      extractZerologChain (mkChain root level fields) termFunc (a0 :: trailing)
        = Returns (level.1, Some a0, omap convertLink fields) /\
      visitExprStmt
          (CallExpr (SelectorExpr (mkChain root level fields) termFunc) (a0 :: trailing))
          Decs
        = Returns (Some (flatStmt level.1 a0 (omap convertLink fields) Decs))) /\
  (forall sendArgs,
      extractZerologChain (mkChain root level fields) "Send" sendArgs
        = Returns (level.1, Some defaultMessage, omap convertLink fields) /\
      visitExprStmt
          (CallExpr (SelectorExpr (mkChain root level fields) "Send") sendArgs) Decs
        = Returns (Some (flatStmt level.1 defaultMessage (omap convertLink fields) Decs))) /\
  defaultMessage = BasicLit {| Kind := STRING; Value := quoted "zerolog event" |} /\
  (forall chainHead termFunc termArgs new,
      visitExprStmt (CallExpr (SelectorExpr chainHead termFunc) termArgs) Decs
        = Returns (Some new) ->
      exists message level' attrs,
        extractZerologChain chainHead termFunc termArgs
          = Returns (level', Some message, attrs) /\
        (oneOf termFunc ["Msg"; "Msgf"] = true -> termArgs !! 0 = Some message) /\
        (termFunc = "Send" -> message = defaultMessage) /\
        new = flatStmt level' message attrs Decs /\
        forall trailing,
          visitExprStmt
              (CallExpr (SelectorExpr chainHead termFunc) (take 1 termArgs ++ trailing))
              Decs
            = Returns (Some new)).
Proof.
  intros Hlvl Hfields.
  split; [|split; [|split; [reflexivity|]]].
  - intros termFunc a0 trailing Hmsgf.
    assert (Hmsg : messageOf termFunc (a0 :: trailing) = Some a0).
    { unfold messageOf. rewrite Hmsgf. reflexivity. }
    split.
    + apply extractZerologChain_chain; assumption.
    + apply (visitExprStmt_chain root level fields (termFunc, a0 :: trailing) a0 Decs);
        try assumption.
      unfold isTerminator, oneOf in *. cbn [fst existsb] in *.
      destruct (String.eqb termFunc "Msg"); [reflexivity|].
      destruct (String.eqb termFunc "Msgf"); [reflexivity|discriminate].
  - intros sendArgs. split.
    + apply extractZerologChain_chain; try assumption. reflexivity.
    + apply (visitExprStmt_chain root level fields ("Send", sendArgs) defaultMessage Decs);
        try assumption; reflexivity.
  - intros chainHead termFunc termArgs new. apply replaced_statement_message.
Qed.

Lemma message_resolution_witness :
  (forall termFunc a0 trailing,
      oneOf termFunc ["Msg"; "Msgf"] = true ->
      extractZerologChain (mkChain "log" ("Info", []) [("Str", [lit "key"; lit "value"])])
          termFunc (a0 :: trailing)
        = Returns ("Info", Some a0,
                   omap convertLink [("Str", [lit "key"; lit "value"])]) /\
      visitExprStmt
          (CallExpr
             (SelectorExpr (mkChain "log" ("Info", []) [("Str", [lit "key"; lit "value"])])
                termFunc)
             (a0 :: trailing))
          noDecs
        = Returns (Some (flatStmt "Info" a0
                           (omap convertLink [("Str", [lit "key"; lit "value"])]) noDecs))) /\
  (forall sendArgs,
      extractZerologChain (mkChain "log" ("Info", []) [("Str", [lit "key"; lit "value"])])
          "Send" sendArgs
        = Returns ("Info", Some defaultMessage,
                   omap convertLink [("Str", [lit "key"; lit "value"])]) /\
      visitExprStmt
          (CallExpr
             (SelectorExpr (mkChain "log" ("Info", []) [("Str", [lit "key"; lit "value"])])
                "Send")
             sendArgs)
          noDecs
        = Returns (Some (flatStmt "Info" defaultMessage
                           (omap convertLink [("Str", [lit "key"; lit "value"])]) noDecs))) /\
  defaultMessage = BasicLit {| Kind := STRING; Value := quoted "zerolog event" |} /\
  (forall chainHead termFunc termArgs new,
      visitExprStmt (CallExpr (SelectorExpr chainHead termFunc) termArgs) noDecs
        = Returns (Some new) ->
      exists message level' attrs,
        extractZerologChain chainHead termFunc termArgs
          = Returns (level', Some message, attrs) /\
        (oneOf termFunc ["Msg"; "Msgf"] = true -> termArgs !! 0 = Some message) /\
        (termFunc = "Send" -> message = defaultMessage) /\
        new = flatStmt level' message attrs noDecs /\
        forall trailing,
          visitExprStmt
              (CallExpr (SelectorExpr chainHead termFunc) (take 1 termArgs ++ trailing))
              noDecs
            = Returns (Some new)).
Proof.
  apply (message_resolution "log" ("Info", []) [("Str", [lit "key"; lit "value"])] noDecs).
  - reflexivity.
  - repeat constructor.
Defined.

(** The two message scenarios of the tests: [Send] yields the literal,
    [Msgf] keeps the format string and loses ["testuser"]. *)
Example message_resolution_scenarios :
  Visit newVisitor [0]
      (chainStmt "log" ("Info", []) [("Str", [lit "key"; lit "value"])] ("Send", []) noDecs)
    = Returns (record newVisitor [0]
                 (ExprStmt
                    (slogLogAttrs
                       [Ident "ctx"; SelectorExpr (Ident "slog") "LevelInfo";
                        BasicLit {| Kind := STRING; Value := quoted "zerolog event" |};
                        slogCall "String" [lit "key"; lit "value"]])
                    noDecs), false) /\
  Visit newVisitor [0]
      (chainStmt "log" ("Warn", []) []
         ("Msgf", [lit "user %s logged in"; lit "testuser"]) noDecs)
    = Returns (record newVisitor [0]
                 (ExprStmt
                    (slogLogAttrs
                       [Ident "ctx"; SelectorExpr (Ident "slog") "LevelWarn";
                        lit "user %s logged in"])
                    noDecs), false).
Proof. split; reflexivity. Qed.

(** ** Decorations *)

(** What [Visit] does to the map and to the decorations: a recorded
    replacement is a statement for a statement or an import for an
    import with the decorations of the node it replaces, and when
    nothing is recorded the visitor is unchanged. *)
Lemma Visit_decorations (v : RewriteVisitor) (id : NodeId) (node : Node) :
  match Visit v id node with
  | Returns (v', false) =>
      exists new,
        v' = record v id new /\
        Decorations new = Decorations node /\
        ((exists X X' D, node = ExprStmt X D /\ new = ExprStmt X' D) \/
         (exists N P D, node = ImportSpec N P D /\ Value P = zerologImport /\
                        new = ImportSpec None {| Kind := STRING; Value := slogImport |} D))
  | Returns (v', true) => v' = v
  | Panics _ => True
  end.
Proof.
  destruct node as [| | | |X D|N P D|]; try reflexivity.
  - cbn [Visit]. destruct (visitExprStmt X D) as [[new|]|] eqn:Hvisit;
      cbn [mbind outcome_bind]; try reflexivity; try exact I.
    exists new. split; [reflexivity|].
    destruct X as [| | |Fun Args| | |]; try discriminate.
    destruct Fun as [| |chainHead termFunc| | | |]; try discriminate.
    unfold visitExprStmt in Hvisit.
    destruct (negb _); [discriminate|].
    destruct chainHead; try discriminate.
    destruct (extractZerologChain _ _ _) as [[[l [m|]] a]|];
      cbn [mbind outcome_bind] in Hvisit; try discriminate.
    rewrite buildSlogLogAttrsCall_returns in Hvisit.
    cbn [mbind outcome_bind] in Hvisit. injection Hvisit as <-.
    split; [reflexivity|]. left. eexists _, _, _. split; reflexivity.
  - cbn [Visit]. destruct (String.eqb_spec (Value P) zerologImport) as [Heq|Hne];
      [|reflexivity].
    eexists. split; [reflexivity|]. split; [reflexivity|].
    right. eexists _, _, _. repeat split. exact Heq.
Qed.

(** ** Panics *)

(** The statement matcher panics exactly on an expression statement
    [chain.Msg()] or [chain.Msgf()] without arguments whose receiver is a
    call. *)
Lemma replacementOf_panics_iff (node : Node) :
  (exists msg, replacementOf node = Panics msg) <->
  exists Fun Args termFunc Decs,
    node = ExprStmt (CallExpr (SelectorExpr (CallExpr Fun Args) termFunc) []) Decs /\
    oneOf termFunc ["Msg"; "Msgf"] = true.
Proof.
  split.
  - intros [msg H].
    destruct node as [| | | |X D|N P D|]; try discriminate.
    + cbn [replacementOf] in H.
      destruct X as [| | |Fun Args| | |]; try discriminate.
      destruct Fun as [| |chainHead termFunc| | | |]; try discriminate.
      unfold visitExprStmt in H.
      destruct (negb _); [discriminate|].
      destruct chainHead as [| | |Fun' Args'| | |]; try discriminate.
      unfold extractZerologChain in H.
      destruct (oneOf termFunc ["Msg"; "Msgf"]) eqn:Hmsgf.
      * destruct Args as [|a0 rest].
        -- eexists _, _, _, _. split; [reflexivity|assumption].
        -- cbn [index lookup list_lookup mbind outcome_bind] in H.
           destruct (chainLoop _ _ _) as [[l [m|]] a]; try discriminate.
           rewrite buildSlogLogAttrsCall_returns in H. discriminate.
      * cbn [mbind outcome_bind] in H.
        destruct (chainLoop _ _ _) as [[l [m|]] a]; try discriminate.
        rewrite buildSlogLogAttrsCall_returns in H. discriminate.
    + cbn in H. destruct (String.eqb _ _); discriminate.
  - intros (Fun & Args & termFunc & D & -> & Hterm).
    exists "index out of range". cbn [replacementOf]. unfold visitExprStmt.
    assert (Ht : oneOf termFunc ["Msg"; "Msgf"; "Send"] = true).
    { unfold oneOf in *. cbn [existsb] in *.
      destruct (String.eqb termFunc "Msg"); [reflexivity|].
      destruct (String.eqb termFunc "Msgf"); [reflexivity|discriminate]. }
    rewrite Ht. cbn [negb]. unfold extractZerologChain. rewrite Hterm. reflexivity.
Qed.

(** C2 (the code panics): on the statement [x.Info().Msg()] the
    statement matcher indexes the empty argument list; [Visit] panics,
    and so does the whole traversal of a file that contains the
    statement. *)
Theorem Msg_without_arguments_panics :
  Visit newVisitor [1; 2; 0] stmtMsgNoArgs = Panics "index out of range" /\
  extractZerologChain (mkChain "x" ("Info", []) []) "Msg" []
    = Panics "index out of range" /\
  transform fileMsgNoArgs = Panics "index out of range".
Proof. repeat split; reflexivity. Qed.

(** ** Induction on trees *)

Lemma Node_ind' (P : Node -> Prop) :
  (forall n, P (Ident n)) ->
  (forall l, P (BasicLit l)) ->
  (forall X Sel, P X -> P (SelectorExpr X Sel)) ->
  (forall Fun Args, P Fun -> Forall P Args -> P (CallExpr Fun Args)) ->
  (forall X D, P X -> P (ExprStmt X D)) ->
  (forall N Pth D, P (ImportSpec N Pth D)) ->
  (forall k ch, Forall P ch -> P (OtherNode k ch)) ->
  forall node, P node.
Proof.
  intros HI HL HS HC HE HM HO.
  fix IH 1. intros node.
  assert (IHl : forall l, Forall P l).
  { intros l. induction l as [|n l IHl]; constructor; [apply IH|exact IHl]. }
  destruct node as [n|l|X Sel|Fun Args|X D|N Pth D|k ch].
  - apply HI.
  - apply HL.
  - apply HS, IH.
  - apply HC; [apply IH|apply IHl].
  - apply HE, IH.
  - apply HM.
  - apply HO, IHl.
Qed.

(** Induction through the children list, whatever the node kind. *)
Lemma Node_children_ind (P : Node -> Prop) :
  (forall node, Forall P (children node) -> P node) ->
  forall node, P node.
Proof.
  intros H. induction node using Node_ind'; apply H; cbn [children];
    repeat constructor; assumption.
Qed.

(** ** One step of [Walk] *)

Lemma Walk_unfold (v : RewriteVisitor) (id : NodeId) (node : Node) :
  Walk v id node =
    r ← replacementOf node;
    match r with
    | Some new => Returns (record v id new)
    | None => walkChildren v id node
    end.
Proof.
  destruct node; cbn [Walk]; rewrite Visit_replacementOf;
    (destruct (replacementOf _) as [[new|]|]; [reflexivity| |reflexivity]);
    cbn [mbind outcome_bind fst snd]; unfold walkChildren; cbn [children walkList];
    try reflexivity.
  - destruct (Walk v (id ++ [0]) node); reflexivity.
  - destruct (Walk v (id ++ [0]) node); reflexivity.
Qed.

Lemma Apply_unfold (replacements : gmap NodeId Node) (id : NodeId) (node : Node) :
  Apply replacements id node =
    match replacements !! id with
    | Some newExpr => newExpr
    | None =>
        withChildren node
          (applyList (fun i n => Apply replacements (id ++ [i]) n) 0 (children node))
    end.
Proof. destruct node; reflexivity. Qed.

Lemma applyList_length (g : nat -> Node -> Node) (i : nat) (l : list Node) :
  length (applyList g i l) = length l.
Proof. revert i. induction l as [|n l IH]; intros i; cbn; [reflexivity|]. f_equal. apply IH. Qed.

Lemma children_withChildren (node : Node) (cs : list Node) :
  length cs = length (children node) -> children (withChildren node cs) = cs.
Proof.
  destruct node; cbn; intros Hlen;
    destruct cs as [|c [|c' cs]]; try discriminate; reflexivity.
Qed.

(** ** Node identities *)

Lemma id_not_below (id : NodeId) (j : nat) (p : list nat) : id <> (id ++ [j]) ++ p.
Proof.
  intros H. apply (f_equal length) in H. rewrite !length_app in H. cbn in H. lia.
Qed.

Lemma siblings_apart (id : NodeId) (i j : nat) (p p' : list nat) :
  i <> j -> (id ++ [i]) ++ p <> (id ++ [j]) ++ p'.
Proof.
  intros Hij H. rewrite <- !app_assoc in H. apply app_inv_head in H.
  cbn in H. congruence.
Qed.

Lemma lookup_record (v : RewriteVisitor) (id q : NodeId) (new : Node) :
  Replacements (record v id new) !! q
    = if decide (id = q) then Some new else Replacements v !! q.
Proof. unfold record. cbn. apply lookup_insert. Qed.

(** ** Frame of [Walk]: only identities at or below the walked node are
    written *)

Lemma walkList_frame (id : NodeId) (l : list Node) :
  Forall framed l ->
  forall v i v1,
    walkList (fun v i n => Walk v (id ++ [i]) n) v i l = Returns v1 ->
  forall q, (forall j p, i <= j -> q <> (id ++ [j]) ++ p) ->
  Replacements v1 !! q = Replacements v !! q.
Proof.
  induction 1 as [|n l Hn _ IH]; intros v i v1 Hwalk q Hq.
  - cbn in Hwalk. injection Hwalk as <-. reflexivity.
  - cbn [walkList] in Hwalk.
    destruct (Walk v (id ++ [i]) n) as [vmid|] eqn:Hhead; [|discriminate].
    cbn [mbind outcome_bind] in Hwalk.
    rewrite (IH _ _ _ Hwalk q) by (intros; apply Hq; lia).
    apply (Hn _ _ _ Hhead). intros p. apply Hq. lia.
Qed.

Lemma Walk_frame (node : Node) : framed node.
Proof.
  induction node as [node IH] using Node_children_ind.
  intros v id v1 Hwalk q Hq. rewrite Walk_unfold in Hwalk.
  destruct (replacementOf node) as [[new|]|]; cbn [mbind outcome_bind] in Hwalk;
    [| |discriminate].
  - injection Hwalk as <-. rewrite lookup_record.
    rewrite decide_False; [reflexivity|].
    intros ->. apply (Hq []). rewrite app_nil_r. reflexivity.
  - unfold walkChildren in Hwalk.
    apply (walkList_frame id _ IH _ _ _ Hwalk).
    intros j p _. rewrite <- app_assoc. apply Hq.
Qed.

(** ** No recorded identity lies below another *)

Lemma Forall_framed (l : list Node) : Forall framed l.
Proof. induction l; constructor; [apply Walk_frame|assumption]. Qed.

Lemma walkList_prefixFree (id : NodeId) (l : list Node) :
  Forall prefixFree l ->
  forall v i v1,
    walkList (fun v i n => Walk v (id ++ [i]) n) v i l = Returns v1 ->
    (forall j p, i <= j -> Replacements v !! ((id ++ [j]) ++ p) = None) ->
  forall j q p, i <= j ->
    is_Some (Replacements v1 !! ((id ++ [j]) ++ q)) -> p <> [] ->
    Replacements v1 !! ((id ++ [j]) ++ q ++ p) = None.
Proof.
  induction 1 as [|n l Hn _ IH]; intros v i v1 Hwalk Hfresh j q p Hj Hsome Hp.
  - cbn in Hwalk. injection Hwalk as <-. apply Hfresh. exact Hj.
  - cbn [walkList] in Hwalk.
    destruct (Walk v (id ++ [i]) n) as [vmid|] eqn:Hhead; [|discriminate].
    cbn [mbind outcome_bind] in Hwalk.
    destruct (decide (j = i)) as [->|Hne].
    + assert (Hrest : forall r,
                Replacements v1 !! ((id ++ [i]) ++ r)
                = Replacements vmid !! ((id ++ [i]) ++ r)).
      { intros r. apply (walkList_frame id l (Forall_framed l) _ _ _ Hwalk).
        intros j' p' Hj'. apply siblings_apart. lia. }
      rewrite Hrest in *.
      apply (Hn v (id ++ [i]) vmid Hhead); [|assumption|assumption].
      intros r. apply Hfresh. lia.
    + apply (IH vmid (S i) v1 Hwalk); [|lia|assumption|assumption].
      intros j' p' Hj'. rewrite (Walk_frame n _ _ _ Hhead).
      * apply Hfresh. lia.
      * intros p''. apply siblings_apart. lia.
Qed.

Lemma Walk_prefixFree (node : Node) : prefixFree node.
Proof.
  induction node as [node IH] using Node_children_ind.
  intros v id v1 Hwalk Hfresh q p Hsome Hp. rewrite Walk_unfold in Hwalk.
  destruct (replacementOf node) as [[new|]|]; cbn [mbind outcome_bind] in Hwalk;
    [| |discriminate].
  - injection Hwalk as <-. rewrite lookup_record in *.
    destruct q as [|j q].
    + rewrite decide_False; [apply Hfresh|].
      intros H. apply (f_equal length) in H. rewrite length_app in H.
      destruct p; [congruence|cbn in H; lia].
    + rewrite decide_False in Hsome.
      * rewrite Hfresh in Hsome. destruct Hsome; discriminate.
      * intros H. apply (f_equal length) in H. rewrite length_app in H. cbn in H. lia.
  - unfold walkChildren in Hwalk.
    destruct q as [|j q].
    + exfalso. rewrite app_nil_r in Hsome.
      rewrite (walkList_frame id _ (Forall_framed _) _ _ _ Hwalk) in Hsome.
      * specialize (Hfresh []). rewrite app_nil_r in Hfresh.
        rewrite Hfresh in Hsome. destruct Hsome; discriminate.
      * intros j p' _. apply id_not_below.
    + change (id ++ (j :: q) ++ p) with (id ++ [j] ++ (q ++ p)).
      change (id ++ j :: q) with (id ++ [j] ++ q) in Hsome.
      rewrite app_assoc in *.
      apply (walkList_prefixFree id _ IH v 0 v1 Hwalk); [|lia|assumption|assumption].
      intros j' p' _. rewrite <- app_assoc. apply Hfresh.
Qed.

(** In the map collected from a file no key lies below another key, so
    the rewriting pass never meets a replacement whose carried-over
    subtrees it has changed. *)
Lemma Walk_keys_apart (file : Node) (v : RewriteVisitor) (q p : list nat) :
  Walk newVisitor [] file = Returns v ->
  is_Some (Replacements v !! q) -> p <> [] ->
  Replacements v !! (q ++ p) = None.
Proof.
  intros Hwalk. apply (Walk_prefixFree file newVisitor [] v Hwalk).
  intros r. apply lookup_empty.
Qed.

(** ** Subtrees without a match *)

Lemma matchFree_unfold (node : Node) :
  matchFree node = isNoMatch (replacementOf node) && forallb matchFree (children node).
Proof. destruct node; cbn [matchFree children forallb]; rewrite ?andb_true_r; reflexivity. Qed.

Lemma noNestedMatch_unfold (node : Node) :
  noNestedMatch node =
    match replacementOf node with
    | Returns (Some _) => forallb matchFree (children node)
    | _ => forallb noNestedMatch (children node)
    end.
Proof.
  destruct node; cbn [noNestedMatch children forallb]; rewrite ?andb_true_r;
    reflexivity.
Qed.

Lemma walkList_matchFree (id : NodeId) (l : list Node) :
  Forall (fun n => matchFree n = true -> forall v id, Walk v id n = Returns v) l ->
  forallb matchFree l = true ->
  forall v i, walkList (fun v i n => Walk v (id ++ [i]) n) v i l = Returns v.
Proof.
  induction 1 as [|n l Hn _ IH]; intros Hfree v i; [reflexivity|].
  cbn [forallb] in Hfree. apply andb_true_iff in Hfree as [Hhead Htail].
  cbn [walkList]. rewrite (Hn Hhead). cbn [mbind outcome_bind]. apply IH, Htail.
Qed.

(** Walking a subtree without a match records nothing. *)
Lemma matchFree_Walk (node : Node) :
  matchFree node = true -> forall v id, Walk v id node = Returns v.
Proof.
  induction node as [node IH] using Node_children_ind.
  intros Hfree v id. rewrite matchFree_unfold in Hfree.
  apply andb_true_iff in Hfree as [Hnone Hbelow].
  rewrite Walk_unfold. destruct (replacementOf node) as [[new|]|]; try discriminate.
  cbn [mbind outcome_bind]. unfold walkChildren. apply walkList_matchFree; assumption.
Qed.

Lemma matchFree_slogCall (slogAttrFunc : string) (slogArgs : list Node) :
  forallb matchFree slogArgs = true -> matchFree (slogCall slogAttrFunc slogArgs) = true.
Proof. intros H. unfold slogCall. cbn [matchFree replacementOf isNoMatch andb]. exact H. Qed.

Lemma matchFree_wrapSecond (slogAttrFunc conv : string) (args : list Node) (c : Node) :
  forallb matchFree args = true ->
  wrapSecond slogAttrFunc conv args = Some c -> matchFree c = true.
Proof.
  destruct args as [|a0 [|a1 [|a2 rest]]]; try discriminate.
  cbn [forallb]. intros H [= <-]. apply matchFree_slogCall.
  apply andb_true_iff in H as [H0 H1]. apply andb_true_iff in H1 as [H1 _].
  cbn [forallb matchFree replacementOf isNoMatch andb]. rewrite H0, H1. reflexivity.
Qed.

(** A converted field contains only what its arguments contained. *)
Lemma matchFree_convert (funcName : string) (args : list Node) (c : Node) :
  forallb matchFree args = true ->
  convertFieldToSlogAttr funcName args = Some c -> matchFree c = true.
Proof.
  intros Hargs. unfold convertFieldToSlogAttr.
  repeat (match goal with
          | |- context [if oneOf funcName ?l then _ else _] =>
              destruct (oneOf funcName l)
          end;
          [ first [ intros [= <-]; apply matchFree_slogCall; assumption
                  | apply matchFree_wrapSecond; assumption
                  | intros [= <-]; apply matchFree_slogCall; cbn [forallb]; exact Hargs ]
          | ]).
  destruct (Nat.eqb _ _); [|discriminate].
  intros [= <-]. apply matchFree_slogCall. assumption.
Qed.

Lemma matchFree_pushAttr (funcName : string) (args acc : list Node) :
  forallb matchFree args = true -> forallb matchFree acc = true ->
  forallb matchFree (pushAttr funcName args acc) = true.
Proof.
  intros Hargs Hacc. unfold pushAttr.
  destruct (convertFieldToSlogAttr funcName args) as [c|] eqn:Hc; [|assumption].
  cbn [forallb]. rewrite (matchFree_convert _ _ _ Hargs Hc). assumption.
Qed.

Lemma matchFree_chainLoop (message : option Node) (current : Node) (acc : list Node) :
  matchFree current = true -> forallb matchFree acc = true ->
  forallb matchFree (chainLoop message current acc).2 = true.
Proof.
  revert current acc.
  apply (chainLoop_elim message
           (fun current acc r => matchFree current = true ->
                                 forallb matchFree acc = true ->
                                 forallb matchFree r.2 = true)).
  - reflexivity.
  - intros; assumption.
  - reflexivity.
  - intros X f a acc _ IH Hcur Hacc.
    cbn [matchFree replacementOf isNoMatch andb] in Hcur.
    apply andb_true_iff in Hcur as [HX Ha].
    apply IH; [assumption|]. apply matchFree_pushAttr; assumption.
Qed.

(** What a recorded statement replacement is made of. *)
Lemma visitExprStmt_Some (X : Node) (Decs : NodeDecs) (new : Node) :
  visitExprStmt X Decs = Returns (Some new) ->
  exists chainHead termFunc termArgs message level attrs,
    X = CallExpr (SelectorExpr chainHead termFunc) termArgs /\
    messageOf termFunc termArgs = Some message /\
    chainLoop (Some message) chainHead [] = (level, Some message, attrs) /\
    new = flatStmt level message attrs Decs.
Proof.
  intros Hvisit.
  destruct X as [| | |Fun termArgs| | |]; try discriminate.
  destruct Fun as [| |chainHead termFunc| | | |]; try discriminate.
  unfold visitExprStmt in Hvisit.
  destruct (negb _); [discriminate|].
  destruct chainHead as [| | |Fun' Args'| | |]; try discriminate.
  unfold extractZerologChain in Hvisit.
  exists (CallExpr Fun' Args'), termFunc, termArgs.
  unfold messageOf.
  destruct (if oneOf termFunc ["Msg"; "Msgf"] then index termArgs 0
            else Returns defaultMessage) as [message|] eqn:Hmsg; [|discriminate].
  cbn [mbind outcome_bind] in Hvisit.
  destruct (chainLoop_result (Some message) (CallExpr Fun' Args') [])
    as [Hfail|(level & attrs & Hok & _)].
  - rewrite Hfail in Hvisit. discriminate.
  - rewrite Hok in Hvisit. rewrite buildSlogLogAttrsCall_returns in Hvisit.
    injection Hvisit as <-.
    exists message, level, attrs. repeat split; try assumption.
    destruct (oneOf termFunc ["Msg"; "Msgf"]).
    + unfold index in Hmsg. destruct (termArgs !! 0); congruence.
    + congruence.
Qed.

(** A replacement built from a node whose children hold no match holds
    no match itself: the flat call is not a chain, the new import is not
    the zerolog import, and everything else is carried over. *)
Lemma matchFree_replacement (node new : Node) :
  replacementOf node = Returns (Some new) ->
  forallb matchFree (children node) = true ->
  matchFree new = true.
Proof.
  intros Hrep Hbelow.
  destruct node as [| | | |X D|N P D|]; try discriminate.
  - cbn [replacementOf] in Hrep. cbn [children forallb] in Hbelow.
    rewrite andb_true_r in Hbelow.
    apply visitExprStmt_Some in Hrep
      as (chainHead & termFunc & termArgs & message & level & attrs
          & -> & Hmsg & Hloop & ->).
    cbn [matchFree replacementOf isNoMatch andb] in Hbelow.
    apply andb_true_iff in Hbelow as [Hhead Hargs].
    assert (Hmessage : matchFree message = true).
    { unfold messageOf in Hmsg. destruct (oneOf termFunc ["Msg"; "Msgf"]).
      - destruct termArgs as [|a0 rest]; [discriminate|].
        injection Hmsg as <-. cbn [forallb] in Hargs.
        apply andb_true_iff in Hargs as [H0 _]. exact H0.
      - injection Hmsg as <-. reflexivity. }
    assert (Hattrs : forallb matchFree attrs = true).
    { pose proof (matchFree_chainLoop (Some message) chainHead [] Hhead eq_refl) as H.
      rewrite Hloop in H. exact H. }
    unfold flatStmt, slogLogAttrs.
    cbn [matchFree replacementOf visitExprStmt oneOf existsb String.eqb Ascii.eqb
         Bool.eqb negb orb isNoMatch andb forallb].
    rewrite Hmessage, Hattrs. reflexivity.
  - cbn [replacementOf] in Hrep.
    destruct (String.eqb _ _); [|discriminate].
    injection Hrep as <-. reflexivity.
Qed.

(** ** Chains of the same shape *)

Lemma chainLoop_skel (m m' : Node) (current : Node) (acc : list Node) :
  chainLoop (Some m) current acc = noMatch ->
  forall current' acc', skel current current' ->
  chainLoop (Some m') current' acc' = noMatch.
Proof.
  revert current acc.
  apply (chainLoop_elim (Some m)
           (fun current acc r => r = noMatch ->
              forall current' acc', skel current current' ->
              chainLoop (Some m') current' acc' = noMatch)).
  - intros current acc Hshape _ current' acc' Hskel.
    destruct Hskel as [| | |Fun Fun' Args Args' HFun Hlen| | |]; try reflexivity.
    destruct HFun; try reflexivity. exfalso. eapply Hshape. reflexivity.
  - discriminate.
  - intros X f a acc Hlvl Hnot _ current' acc' Hskel.
    inversion Hskel as [| | |Fun Fun' Args Args' HFun Hlen| | |]; subst.
    inversion HFun as [| |X0 X' Sel HX| | | |]; subst.
    cbn [chainLoop]. rewrite Hlvl.
    destruct HX; try reflexivity. exfalso. eapply Hnot. reflexivity.
  - intros X f a acc Hlvl IH Hfail current' acc' Hskel.
    inversion Hskel as [| | |Fun Fun' Args Args' HFun Hlen| | |]; subst.
    inversion HFun as [| |X0 X' Sel HX| | | |]; subst.
    cbn [chainLoop]. rewrite Hlvl. apply (IH Hfail). exact HX.
Qed.

(** The statement matcher's "no" depends on the shape of the chain only. *)
Lemma visitExprStmt_skel (X X' : Node) (Decs Decs' : NodeDecs) :
  skel X X' ->
  visitExprStmt X Decs = Returns None -> visitExprStmt X' Decs' = Returns None.
Proof.
  intros Hskel Hvisit.
  destruct Hskel as [| | |Fun Fun' Args Args' HFun Hlen| | |]; try reflexivity.
  destruct HFun as [| |chainHead chainHead' termFunc Hhead| | | |]; try reflexivity.
  unfold visitExprStmt in *.
  destruct (negb _); [reflexivity|].
  destruct Hhead as [| | |F F' A A' HF HA| | |]; try reflexivity.
  assert (Hskel : skel (CallExpr F A) (CallExpr F' A')) by (constructor; assumption).
  unfold extractZerologChain in *.
  destruct (oneOf termFunc ["Msg"; "Msgf"]).
  - destruct Args as [|a0 rest]; [discriminate|].
    destruct Args' as [|a0' rest']; [discriminate|].
    cbn [index lookup list_lookup mbind outcome_bind] in *.
    destruct (chainLoop_result (Some a0) (CallExpr F A) [])
      as [Hfail|(level & attrs & Hok & _)].
    + rewrite (chainLoop_skel a0 a0' _ _ Hfail _ [] Hskel). reflexivity.
    + rewrite Hok in Hvisit. rewrite buildSlogLogAttrsCall_returns in Hvisit.
      discriminate.
  - cbn [mbind outcome_bind] in *.
    destruct (chainLoop_result (Some defaultMessage) (CallExpr F A) [])
      as [Hfail|(level & attrs & Hok & _)].
    + rewrite (chainLoop_skel _ defaultMessage _ _ Hfail _ [] Hskel). reflexivity.
    + rewrite Hok in Hvisit. rewrite buildSlogLogAttrsCall_returns in Hvisit.
      discriminate.
Qed.

Lemma skel_withChildren (node : Node) (cs : list Node) :
  Forall2 skel (children node) cs -> skel node (withChildren node cs).
Proof.
  destruct node; cbn [children]; intros H.
  - constructor.
  - constructor.
  - inversion H as [|x c l l' Hx Hl]; subst. inversion Hl; subst. constructor. exact Hx.
  - inversion H as [|x c l l' Hx Hl]; subst. constructor; [exact Hx|].
    eapply Forall2_length, Hl.
  - inversion H as [|x c l l' Hx Hl]; subst. inversion Hl; subst. constructor.
  - constructor.
  - constructor.
Qed.

Lemma replacementOf_withChildren (node : Node) (cs : list Node) :
  Forall2 skel (children node) cs ->
  replacementOf node = Returns None ->
  replacementOf (withChildren node cs) = Returns None.
Proof.
  destruct node; cbn [children]; intros H Hrep.
  - reflexivity.
  - reflexivity.
  - inversion H as [|x c l l' Hx Hl]; subst. inversion Hl; subst. reflexivity.
  - inversion H; subst. reflexivity.
  - inversion H as [|x c l l' Hx Hl]; subst. inversion Hl; subst.
    cbn [withChildren replacementOf] in *. eapply visitExprStmt_skel; eassumption.
  - inversion H; subst. exact Hrep.
  - reflexivity.
Qed.

(** ** The second run *)

Lemma skel_replacement (node new : Node) :
  replacementOf node = Returns (Some new) -> skel node new.
Proof.
  destruct node as [| | | |X D|N P D|]; try discriminate; cbn [replacementOf].
  - intros H. apply visitExprStmt_Some in H as (? & ? & ? & ? & ? & ? & _ & _ & _ & ->).
    constructor.
  - destruct (String.eqb _ _); [|discriminate]. intros [= <-]. constructor.
Qed.

(** A replacement is never matched again. *)
Lemma replacement_not_rematched (node new : Node) :
  replacementOf node = Returns (Some new) -> replacementOf new = Returns None.
Proof.
  destruct node as [| | | |X D|N P D|]; try discriminate; cbn [replacementOf].
  - intros H. apply visitExprStmt_Some in H as (? & ? & ? & ? & ? & ? & _ & _ & _ & ->).
    reflexivity.
  - destruct (String.eqb _ _); [|discriminate]. intros [= <-]. reflexivity.
Qed.

Lemma walkList_settles (id : NodeId) (l : list Node) :
  Forall settles l ->
  forall v i v1 (m : gmap NodeId Node),
    walkList (fun v i n => Walk v (id ++ [i]) n) v i l = Returns v1 ->
    (forall j p, i <= j -> Replacements v !! ((id ++ [j]) ++ p) = None) ->
    (forall j p, i <= j -> m !! ((id ++ [j]) ++ p) = Replacements v1 !! ((id ++ [j]) ++ p)) ->
    forallb noNestedMatch l = true ->
    Forall2 skel l (applyList (fun i n => Apply m (id ++ [i]) n) i l) /\
    forall v' id' i',
      walkList (fun v i n => Walk v (id' ++ [i]) n) v' i'
        (applyList (fun i n => Apply m (id ++ [i]) n) i l) = Returns v'.
Proof.
  induction 1 as [|n l Hn Hl IH]; intros v i v1 m Hwalk Hfresh Hagree Hnested.
  - split; [constructor|reflexivity].
  - cbn [walkList] in Hwalk.
    destruct (Walk v (id ++ [i]) n) as [vmid|] eqn:Hhead; [|discriminate].
    cbn [mbind outcome_bind] in Hwalk.
    cbn [forallb] in Hnested. apply andb_true_iff in Hnested as [Hn_nested Hl_nested].
    pose proof (Forall_framed l) as Hframed.
    destruct (Hn v (id ++ [i]) vmid m Hhead) as [Hskel Hsecond].
    { intros p. apply Hfresh. lia. }
    { intros p. rewrite Hagree by lia.
      apply (walkList_frame id l Hframed _ _ _ Hwalk).
      intros j p' Hj. apply siblings_apart. lia. }
    { exact Hn_nested. }
    destruct (IH vmid (S i) v1 m Hwalk) as [Hskels Hseconds].
    { intros j p Hj. rewrite (Walk_frame n _ _ _ Hhead).
      - apply Hfresh. lia.
      - intros p'. apply siblings_apart. lia. }
    { intros j p Hj. apply Hagree. lia. }
    { exact Hl_nested. }
    split.
    + cbn [applyList]. constructor; assumption.
    + intros v' id' i'. cbn [applyList walkList]. rewrite Hsecond.
      cbn [mbind outcome_bind]. apply Hseconds.
Qed.

Lemma Walk_settles (node : Node) : settles node.
Proof.
  induction node as [node IH] using Node_children_ind.
  intros v id v1 m Hwalk Hfresh Hagree Hnested.
  rewrite Walk_unfold in Hwalk. rewrite noNestedMatch_unfold in Hnested.
  rewrite Apply_unfold.
  pose proof (Hagree []) as Hid. rewrite app_nil_r in Hid.
  destruct (replacementOf node) as [[new|]|] eqn:Hrep;
    cbn [mbind outcome_bind] in Hwalk; [| |discriminate].
  - injection Hwalk as <-.
    rewrite lookup_record, decide_True in Hid by reflexivity. rewrite Hid.
    split; [apply skel_replacement; assumption|].
    intros v' id'. apply matchFree_Walk.
    eapply matchFree_replacement; eassumption.
  - unfold walkChildren in Hwalk.
    pose proof (Forall_framed (children node)) as Hframed.
    assert (Hnone : m !! id = None).
    { rewrite Hid.
      rewrite (walkList_frame id _ Hframed _ _ _ Hwalk).
      - specialize (Hfresh []). rewrite app_nil_r in Hfresh. exact Hfresh.
      - intros j p _. apply id_not_below. }
    rewrite Hnone.
    destruct (walkList_settles id (children node) IH v 0 v1 m Hwalk)
      as [Hskels Hseconds].
    { intros j p _. rewrite <- app_assoc. apply Hfresh. }
    { intros j p _. rewrite <- app_assoc. apply Hagree. }
    { exact Hnested. }
    split; [apply skel_withChildren; assumption|].
    intros v' id'. rewrite Walk_unfold.
    rewrite (replacementOf_withChildren _ _ Hskels Hrep).
    cbn [mbind outcome_bind]. unfold walkChildren.
    rewrite children_withChildren by apply applyList_length.
    apply Hseconds.
Qed.

Lemma withChildren_children (node : Node) : withChildren node (children node) = node.
Proof. destruct node; reflexivity. Qed.

(** A subtree with no key at or below it comes out of the rewriting
    pass as it went in. *)
Lemma Apply_untouched (replacements : gmap NodeId Node) (node : Node) :
  forall id, (forall p, replacements !! (id ++ p) = None) ->
  Apply replacements id node = node.
Proof.
  induction node as [node IH] using Node_children_ind. intros id Hnone.
  rewrite Apply_unfold.
  pose proof (Hnone []) as Hid. rewrite app_nil_r in Hid. rewrite Hid.
  assert (Hcs : forall i,
    applyList (fun i n => Apply replacements (id ++ [i]) n) i (children node)
    = children node).
  { induction IH as [|n l Hn _ IHl]; intros i; [reflexivity|].
    cbn [applyList]. rewrite Hn, IHl; [reflexivity|].
    intros p. rewrite <- app_assoc. apply Hnone. }
  rewrite Hcs. apply withChildren_children.
Qed.

Lemma Apply_empty (node : Node) (id : NodeId) : Apply ∅ id node = node.
Proof. apply Apply_untouched. intros p. apply lookup_empty. Qed.

(** C8 (as stated, refuted): in
    [log.Info().Str("k", func() { log.Debug().Msg("inner") }()).Msg("outer")]
    the first run replaces the outer statement without visiting its
    arguments, so the inner statement survives in the output and the
    second run records a replacement for it. *)
Lemma second_run_counterexample :
  exists v1 out1 v2 out2,
    transform fileNested = Returns (v1, out1) /\
    transform out1 = Returns (v2, out2) /\
    Replacements v2 !! [2; 2; 0; 0; 4; 2; 0; 1; 0]
      = Some (flatStmt "Debug" (lit "inner") [] noDecs) /\
    Replacements v2 <> ∅.
Proof.
  eexists _, _, _, _.
  split; [vm_compute; reflexivity|].
  split; [vm_compute; reflexivity|].
  split; [vm_compute; reflexivity|].
  intros H. apply (f_equal (fun m => m !! [2; 2; 0; 0; 4; 2; 0; 1; 0])) in H.
  vm_compute in H. discriminate.
Qed.

(** C8 (amended): if the first run completes on a tree in which, below
    every node that the statement matcher replaces, there is no node
    that it would replace and no statement on which it would panic (a
    [Msg] or [Msgf] without arguments), then the second run on the output
    records nothing (its Replacement Map is empty) and leaves the output
    as it is. *)
Theorem second_run_records_nothing (file out : Node) (v : RewriteVisitor) :
  transform file = Returns (v, out) ->
  noNestedMatch file = true ->
  transform out = Returns (newVisitor, out) /\ Replacements newVisitor = ∅.
Proof.
  unfold transform. intros Hfirst Hnested.
  destruct (Walk newVisitor [] file) as [v1|] eqn:Hwalk; [|discriminate].
  cbn [mbind outcome_bind] in Hfirst. injection Hfirst as <- <-.
  destruct (Walk_settles file newVisitor [] v1 (Replacements v1) Hwalk)
    as [_ Hsecond].
  - intros p. apply lookup_empty.
  - reflexivity.
  - exact Hnested.
  - rewrite Hsecond. cbn [mbind outcome_bind newVisitor Replacements].
    rewrite Apply_empty. split; reflexivity.
Qed.

Lemma second_run_records_nothing_witness :
  exists v out,
    transform fileFlat = Returns (v, out) /\
    Replacements v !! [2; 2; 1] = Some (flatStmt "Debug" (lit "inner") [] noDecs) /\
    transform out = Returns (newVisitor, out) /\ Replacements newVisitor = ∅.
Proof.
  eexists _, _.
  split; [vm_compute; reflexivity|].
  split; [vm_compute; reflexivity|].
  eapply (second_run_records_nothing fileFlat).
  - vm_compute. reflexivity.
  - vm_compute. reflexivity.
Defined.

(** * Further properties *)

(** ** The field mapper *)

(** Case analysis on the field name: one goal per name of the table, with
    the name substituted, and one for a name outside the table. *)
Ltac field_cases f :=
  repeat match goal with
         | |- context [String.eqb f ?s] =>
             destruct (String.eqb_spec f s) as [->|?]
         end.

Lemma convert_unfold (f : string) (args : list Node) :
  convertFieldToSlogAttr f args =
    if String.eqb f "Bool" then Some (slogCall "Bool" args)
    else if String.eqb f "Dur" then Some (slogCall "Duration" args)
    else if String.eqb f "Float32" then wrapSecond "Float64" "float64" args
    else if String.eqb f "Float64" then Some (slogCall "Float64" args)
    else if String.eqb f "Str" then Some (slogCall "String" args)
    else if String.eqb f "Int" then Some (slogCall "Int" args)
    else if String.eqb f "Int8" then wrapSecond "Int" "int" args
    else if String.eqb f "Int16" then wrapSecond "Int" "int" args
    else if String.eqb f "Int32" then wrapSecond "Int" "int" args
    else if String.eqb f "Int64" then Some (slogCall "Int64" args)
    else if String.eqb f "Uint64" then Some (slogCall "UInt64" args)
    else if String.eqb f "Uint" then wrapSecond "Uint64" "uint64" args
    else if String.eqb f "Uint8" then wrapSecond "Uint64" "uint64" args
    else if String.eqb f "Uint16" then wrapSecond "Uint64" "uint64" args
    else if String.eqb f "Uint32" then wrapSecond "Uint64" "uint64" args
    else if String.eqb f "Time" then Some (slogCall "Time" args)
    else if String.eqb f "Err" then Some (slogCall "Any" (errKey :: args))
    else if Nat.eqb (length args) 2 then Some (slogCall "Any" args)
    else None.
Proof.
  unfold convertFieldToSlogAttr, oneOf. cbn [existsb].
  repeat match goal with
         | |- context [String.eqb f ?s || _] => destruct (String.eqb f s); cbn [orb]
         end; reflexivity.
Qed.

Lemma wrapSecond_None (T conv : string) (args : list Node) :
  wrapSecond T conv args = None <-> length args <> 2.
Proof.
  destruct args as [|a [|b [|c r]]]; cbn; split; intros H;
    try reflexivity; try discriminate; try lia; congruence.
Qed.

(** X1: the field mapper returns nil exactly when the argument count is
    not 2 and the name is neither a pass-through name nor [Err]. *)
Theorem convert_nil_iff (f : string) (args : list Node) :
  convertFieldToSlogAttr f args = None <->
  length args <> 2 /\ oneOf f (passThroughNames ++ ["Err"]) = false.
Proof.
  rewrite convert_unfold. unfold oneOf, passThroughNames. cbn [app existsb].
  field_cases f; cbn [orb];
    try (split; [discriminate | intros [_ H]; discriminate]);
    try (rewrite wrapSecond_None; split; [intros H; split; [exact H|reflexivity]
                                         | intros [H _]; exact H]).
  destruct (Nat.eqb_spec (length args) 2) as [Hlen|Hlen].
  - split; [discriminate | intros [H _]; contradiction].
  - split; [intros _; split; [exact Hlen|reflexivity] | reflexivity].
Qed.

Lemma wrapSecond_Some (T conv : string) (args : list Node) (c : Node) :
  wrapSecond T conv args = Some c ->
  exists k v, args = [k; v] /\ c = slogCall T [k; CallExpr (Ident conv) [v]].
Proof.
  destruct args as [|a [|b [|d r]]]; cbn; intros H; try discriminate.
  injection H as <-. eexists _, _. split; reflexivity.
Qed.

(** X2: whatever the field mapper returns is a call [slog.<T>(...)] with
    [T] one of ten names, and no argument is dropped or reordered: the
    arguments are passed on as they are, or (for [Err]) after the key
    literal, or as key and value with the value inside one conversion
    call whose conversion goes with [T]. *)
Theorem converted_field_shape (f : string) (args : list Node) (c : Node) :
  convertFieldToSlogAttr f args = Some c ->
  exists T slogArgs,
    c = slogCall T slogArgs /\ In T targetNames /\
    (slogArgs = args \/
     (f = "Err" /\ slogArgs = errKey :: args) \/
     exists k v conv,
       args = [k; v] /\ In (conv, T) conversions /\
       slogArgs = [k; CallExpr (Ident conv) [v]]).
Proof.
  rewrite convert_unfold.
  field_cases f;
    try (intros [= <-]; eexists _, _; split; [reflexivity|];
         split; [cbn; tauto|]; (left; reflexivity) || (right; left; split; reflexivity));
    try (intros H; apply wrapSecond_Some in H as (k & v & -> & ->);
         eexists _, _; split; [reflexivity|]; split; [cbn; tauto|];
         right; right; exists k, v; eexists; split; [reflexivity|];
         split; [cbn; tauto|reflexivity]).
  destruct (Nat.eqb (length args) 2); [|discriminate].
  intros [= <-]. eexists _, _. split; [reflexivity|]. split; [cbn; tauto|].
  left. reflexivity.
Qed.

Lemma converted_field_shape_witness :
  exists T slogArgs,
    slogCall "Int" [Ident "k"; CallExpr (Ident "int") [Ident "v"]] = slogCall T slogArgs /\
    In T targetNames /\
    (slogArgs = [Ident "k"; Ident "v"] \/
     ("Int16" = "Err" /\ slogArgs = errKey :: [Ident "k"; Ident "v"]) \/
     exists k v conv,
       [Ident "k"; Ident "v"] = [k; v] /\ In (conv, T) conversions /\
       slogArgs = [k; CallExpr (Ident conv) [v]]).
Proof.
  apply (converted_field_shape "Int16" [Ident "k"; Ident "v"]). reflexivity.
Defined.

(** X3: a widening field method called with a key and a value always
    converts, to the key followed by the value wrapped in [float64],
    [int] or [uint64]; every other method called with a key and a value
    converts too and passes both on untouched ([Err] after its key
    literal). *)
Theorem widening_wraps_value_only (f : string) (k v : Node) :
  if oneOf f wideningNames
  then exists conv T,
         In (conv, T) conversions /\
         convertFieldToSlogAttr f [k; v]
           = Some (slogCall T [k; CallExpr (Ident conv) [v]])
  else exists T,
         convertFieldToSlogAttr f [k; v]
           = Some (slogCall T (if String.eqb f "Err" then [errKey; k; v] else [k; v])).
Proof.
  rewrite convert_unfold. unfold oneOf, wideningNames. cbn [existsb].
  field_cases f; cbn [orb];
    try (eexists _, _; split; [|reflexivity]; cbn; tauto);
    eexists; reflexivity.
Qed.

(** X4: a method name outside the table (a level name such as [Info]
    included) with exactly two arguments is mapped to [slog.Any] of the
    two arguments. *)
Theorem unknown_field_falls_back_to_Any (f : string) (k v : Node) :
  oneOf f (passThroughNames ++ wideningNames ++ ["Err"]) = false ->
  convertFieldToSlogAttr f [k; v] = Some (slogCall "Any" [k; v]).
Proof.
  rewrite convert_unfold. unfold oneOf, passThroughNames, wideningNames.
  cbn [app existsb].
  field_cases f; cbn [orb]; try discriminate. reflexivity.
Qed.

Lemma unknown_field_falls_back_to_Any_witness :
  convertFieldToSlogAttr "Hex" [Ident "k"; Ident "v"]
    = Some (slogCall "Any" [Ident "k"; Ident "v"]).
Proof.
  apply (unknown_field_falls_back_to_Any "Hex" (Ident "k") (Ident "v")). reflexivity.
Defined.

(** ** The level table *)

(** X5: a name is a logger level exactly when it is one of the seven
    names of the table, and every constant of the table splits at its dot
    into the package [slog] and one more part. *)
Theorem logLevels_entries (name : string) :
  match logLevels !! name with
  | Some c =>
      isLoggerLevel name = true /\ In name levelNames /\
      exists target, Split c "." = ["slog"; target]
  | None => isLoggerLevel name = false /\ ~ In name levelNames
  end.
Proof.
  unfold isLoggerLevel. rewrite logLevels_lookup. unfold levelNames.
  field_cases name;
    try (split; [reflexivity|]; split; [cbn; tauto|]; eexists; reflexivity).
  split; [reflexivity|]. cbn. intuition congruence.
Qed.

(** ** The spine of a chain *)

Lemma spine_elim (P : Node -> Prop) :
  (forall n, (forall X f a, n <> CallExpr (SelectorExpr X f) a) -> P n) ->
  (forall X f a, P X -> P (CallExpr (SelectorExpr X f) a)) ->
  forall n, P n.
Proof.
  intros Hbase Hlink. fix IH 1. intros n.
  destruct n as [| | |Fun Args| | |]; try (apply Hbase; intros; discriminate).
  destruct Fun as [| |X f| | | |]; try (apply Hbase; intros; discriminate).
  apply Hlink, IH.
Qed.

Lemma spine_not_link (n : Node) :
  (forall X f a, n <> CallExpr (SelectorExpr X f) a) ->
  spineLinks n = [] /\ spineBase n = n.
Proof.
  intros H. destruct n as [| | |Fun Args| | |]; try (split; reflexivity).
  destruct Fun; try (split; reflexivity). exfalso. eapply H. reflexivity.
Qed.

Lemma spineLinks_nil (n : Node) : spineLinks n = [] -> spineBase n = n.
Proof.
  destruct n as [| | |Fun Args| | |]; try reflexivity.
  destruct Fun; try reflexivity. cbn. intros H.
  destruct (spineLinks Fun); discriminate.
Qed.

(** Every node is the chain of its links on its base. *)
Lemma spine_decompose (n : Node) : n = mkChainOn (spineBase n) (spineLinks n).
Proof.
  induction n as [n Hn|X f a IH] using spine_elim.
  - destruct (spine_not_link n Hn) as [-> ->]. reflexivity.
  - cbn [spineBase spineLinks]. unfold mkChainOn in *. rewrite foldl_app.
    cbn [foldl]. rewrite <- IH. reflexivity.
Qed.

Lemma spine_mkChainOn (base : Node) (links : list Link) :
  (forall X f a, base <> CallExpr (SelectorExpr X f) a) ->
  spineBase (mkChainOn base links) = base /\
  spineLinks (mkChainOn base links) = links.
Proof.
  intros Hbase. induction links as [|l links IH] using rev_ind.
  - apply and_comm. apply spine_not_link. exact Hbase.
  - unfold mkChainOn in *. rewrite foldl_app. cbn [foldl].
    destruct l as [f a]. cbn [addLink fst snd spineBase spineLinks].
    destruct IH as [-> ->]. split; reflexivity.
Qed.

Lemma isFieldLink_false (f : string) (a : list Node) (l : list Link) :
  isLoggerLevel f = true -> forallb isFieldLink (l ++ [(f, a)]) = false.
Proof.
  intros H. rewrite forallb_app. cbn. unfold isFieldLink. cbn. rewrite H.
  apply andb_false_r.
Qed.

(** The loop computes what the spine says, whatever the node. *)
Lemma chainLoop_spine (message : Node) (current : Node) (acc : list Node) :
  chainLoop (Some message) current acc =
    match extractSpine message current with
    | (level, Some m, attrs) => (level, Some m, attrs ++ acc)
    | r => r
    end.
Proof.
  revert current acc.
  apply (chainLoop_elim (Some message)
           (fun current acc r =>
              r = match extractSpine message current with
                  | (level, Some m, attrs) => (level, Some m, attrs ++ acc)
                  | r => r
                  end)).
  - intros current acc Hshape. unfold extractSpine.
    destruct (spine_not_link current Hshape) as [-> ->].
    destruct current; reflexivity.
  - intros root f a acc Hlvl. unfold extractSpine. cbn. rewrite Hlvl. reflexivity.
  - intros X f a acc Hlvl Hnot. unfold extractSpine. cbn [spineBase spineLinks].
    destruct (spineLinks X) as [|l0 rest] eqn:Hlinks.
    + rewrite (spineLinks_nil X Hlinks).
      destruct X; try reflexivity. exfalso. eapply Hnot. reflexivity.
    + cbn [app]. rewrite (isFieldLink_false f a rest Hlvl), andb_false_r.
      destruct (spineBase X); reflexivity.
  - intros X f a acc Hlvl IH. rewrite IH. unfold extractSpine.
    cbn [spineBase spineLinks].
    destruct (spineLinks X) as [|l0 rest] eqn:Hlinks.
    + cbn [app fst]. rewrite Hlvl. cbn [andb].
      destruct (spineBase X); reflexivity.
    + cbn [app]. rewrite forallb_app. cbn [forallb]. unfold isFieldLink at 3.
      cbn [fst]. rewrite Hlvl. cbn [negb andb]. rewrite andb_true_r.
      destruct (spineBase X); try reflexivity.
      destruct (isLoggerLevel l0.1 && forallb isFieldLink rest); [|reflexivity].
      rewrite omap_app, <- app_assoc. f_equal. f_equal.
      unfold pushAttr. cbn. unfold convertLink at 1. cbn.
      destruct (convertFieldToSlogAttr f a); reflexivity.
Qed.

(** X6: the chain extractor in closed form. Once the message is
    resolved, the result is read off the spine of the chain: success
    exactly when the chain stands on an identifier, its innermost link is
    a level and no other link is named like a level, with the conversions
    of the recognized field links in source order; the failure triple in
    every other case. *)
Theorem extractZerologChain_spine (currentCall : Node) (termFunc : string)
    (termArgs : list Node) :
  extractZerologChain currentCall termFunc termArgs =
    match messageOf termFunc termArgs with
    | Some message => Returns (extractSpine message currentCall)
    | None => Panics "index out of range"
    end.
Proof.
  unfold extractZerologChain, messageOf, index.
  destruct (oneOf termFunc ["Msg"; "Msgf"]).
  - destruct (termArgs !! 0) as [a0|]; [|reflexivity].
    cbn [mbind outcome_bind]. rewrite chainLoop_spine.
    destruct (extractSpine a0 currentCall) as [[l [m|]] a]; [|reflexivity].
    rewrite app_nil_r. reflexivity.
  - cbn [mbind outcome_bind]. rewrite chainLoop_spine.
    destruct (extractSpine defaultMessage currentCall) as [[l [m|]] a]; [|reflexivity].
    rewrite app_nil_r. reflexivity.
Qed.

(** ** The statement matcher in closed form *)

Lemma visitExprStmt_spine (chainHead : Node) (termFunc : string)
    (termArgs : list Node) (Decs : NodeDecs) :
  visitExprStmt (CallExpr (SelectorExpr chainHead termFunc) termArgs) Decs =
    if negb (isTerminator termFunc) then Returns None
    else match chainHead with
         | CallExpr _ _ =>
             match messageOf termFunc termArgs with
             | Some message =>
                 match extractSpine message chainHead with
                 | (level, Some m, attrs) => Returns (Some (flatStmt level m attrs Decs))
                 | _ => Returns None
                 end
             | None => Panics "index out of range"
             end
         | _ => Returns None
         end.
Proof.
  unfold visitExprStmt, isTerminator.
  destruct (negb _); [reflexivity|].
  destruct chainHead as [| | |Fun Args| | |]; try reflexivity.
  unfold extractZerologChain, messageOf, index.
  destruct (oneOf termFunc ["Msg"; "Msgf"]).
  - destruct (termArgs !! 0) as [a0|]; [|reflexivity].
    cbn [mbind outcome_bind]. rewrite chainLoop_spine.
    destruct (extractSpine a0 (CallExpr Fun Args)) as [[l [m|]] a]; [|reflexivity].
    rewrite app_nil_r, buildSlogLogAttrsCall_returns. reflexivity.
  - cbn [mbind outcome_bind]. rewrite chainLoop_spine.
    destruct (extractSpine defaultMessage (CallExpr Fun Args)) as [[l [m|]] a];
      [|reflexivity].
    rewrite app_nil_r, buildSlogLogAttrsCall_returns. reflexivity.
Qed.

Lemma forallb_isFieldLink (fields : list Link) :
  forallb isFieldLink fields = true <->
  Forall (fun l : Link => isLoggerLevel l.1 = false) fields.
Proof.
  rewrite forallb_forall, Forall_forall. unfold isFieldLink.
  split; intros H l Hl.
  - apply list_elem_of_In, H in Hl. destruct (isLoggerLevel l.1); [discriminate|reflexivity].
  - apply list_elem_of_In, H in Hl. rewrite Hl. reflexivity.
Qed.

(** X7: an expression statement is replaced exactly when its expression
    is [root.Level(..).F1(..)....Fn(..).Term(..)] with an identifier
    [root], a level name [Level], no [Fi] named like a level, [Term] one
    of Msg, Msgf and Send, and a first argument when [Term] is Msg or
    Msgf; the replacement is then the flat call with the conversions of
    the recognized [Fi]. *)
Theorem statement_replaced_iff (X : Node) (Decs : NodeDecs) (new : Node) :
  replacementOf (ExprStmt X Decs) = Returns (Some new) <->
  exists root level fields term message,
    X = addLink (mkChain root level fields) term /\
    isLoggerLevel level.1 = true /\
    forallb isFieldLink fields = true /\
    isTerminator term.1 = true /\
    messageOf term.1 term.2 = Some message /\
    new = flatStmt level.1 message (omap convertLink fields) Decs.
Proof.
  cbn [replacementOf]. split.
  - intros Hvisit.
    destruct X as [| | |Fun termArgs| | |]; try discriminate.
    destruct Fun as [| |chainHead termFunc| | | |]; try discriminate.
    rewrite visitExprStmt_spine in Hvisit.
    destruct (isTerminator termFunc) eqn:Hterm; [|discriminate]. cbn [negb] in Hvisit.
    destruct chainHead as [| | |Fun Args| | |]; try discriminate.
    destruct (messageOf termFunc termArgs) as [message|] eqn:Hmsg; [|discriminate].
    unfold extractSpine in Hvisit.
    pose proof (spine_decompose (CallExpr Fun Args)) as Hspine.
    destruct (spineBase (CallExpr Fun Args)) as [root| | | | | |]; try discriminate.
    destruct (spineLinks (CallExpr Fun Args)) as [|level fields]; [discriminate|].
    destruct (isLoggerLevel level.1) eqn:Hlvl; [|discriminate].
    destruct (forallb isFieldLink fields) eqn:Hfields; [|discriminate].
    cbn [andb] in Hvisit. injection Hvisit as <-.
    exists root, level, fields, (termFunc, termArgs), message.
    rewrite Hspine. repeat split; assumption.
  - intros (root & level & fields & term & message & -> & Hlvl & Hfields & Hterm & Hmsg & ->).
    apply visitExprStmt_chain; try assumption.
    apply forallb_isFieldLink. assumption.
Qed.

(** X8: a chain whose terminator has its message (any [Send], or [Msg]
    and [Msgf] with a first argument) and that does not stand on an
    identifier, or whose innermost link is not a level, or that has a
    later link named like a level, is left alone: [Visit] records
    nothing and lets the traversal descend. *)
Theorem malformed_chain_left_alone (v : RewriteVisitor) (id : NodeId) (base : Node)
    (links : list Link) (term : Link) (message : Node) (Decs : NodeDecs) :
  (forall X f a, base <> CallExpr (SelectorExpr X f) a) ->
  messageOf term.1 term.2 = Some message ->
  match base, links with
  | Ident _, level :: fields => isLoggerLevel level.1 && forallb isFieldLink fields
  | _, _ => false
  end = false ->
  Visit v id (ExprStmt (addLink (mkChainOn base links) term) Decs) = Returns (v, true).
Proof.
  intros Hbase Hmsg Hbad.
  rewrite Visit_replacementOf. cbn [replacementOf]. destruct term as [termFunc termArgs].
  unfold addLink at 1. cbn [fst snd] in *. rewrite visitExprStmt_spine.
  destruct (negb (isTerminator termFunc)); [reflexivity|].
  rewrite Hmsg. unfold extractSpine.
  destruct (spine_mkChainOn base links Hbase) as [-> ->].
  destruct (mkChainOn base links); try reflexivity.
  destruct base; try reflexivity.
  destruct links as [|level fields]; [reflexivity|].
  rewrite Hbad. reflexivity.
Qed.

Lemma malformed_chain_left_alone_witness :
  Visit newVisitor [4] stmtFieldLogger = Returns (newVisitor, true).
Proof.
  apply (malformed_chain_left_alone newVisitor [4] (SelectorExpr (Ident "s") "logger")
           [("Info", []); ("Str", [lit "k"; lit "v"])] ("Msg", [lit "m"]) (lit "m") noDecs).
  - intros; discriminate.
  - reflexivity.
  - reflexivity.
Defined.

(** X9: the arguments of the level call and the arguments of a [Send]
    terminator are never read: the decision and the replacement are the
    same without them. *)
Theorem level_and_Send_arguments_ignored (v : RewriteVisitor) (id : NodeId)
    (root level : string) (levelArgs sendArgs : list Node) (fields : list Link)
    (term : Link) (Decs : NodeDecs) :
  Visit v id (chainStmt root (level, levelArgs) fields term Decs)
    = Visit v id (chainStmt root (level, []) fields term Decs) /\
  Visit v id (chainStmt root (level, levelArgs) fields ("Send", sendArgs) Decs)
    = Visit v id (chainStmt root (level, []) fields ("Send", []) Decs).
Proof.
  assert (Hspine : forall largs,
            spineBase (mkChain root (level, largs) fields) = Ident root /\
            spineLinks (mkChain root (level, largs) fields) = (level, largs) :: fields).
  { intros largs.
    apply (spine_mkChainOn (Ident root) ((level, largs) :: fields)).
    intros; discriminate. }
  assert (Hsame : forall largs termFunc termArgs,
            visitExprStmt
              (CallExpr (SelectorExpr (mkChain root (level, largs) fields) termFunc) termArgs)
              Decs
            = if negb (isTerminator termFunc) then Returns None
              else match messageOf termFunc termArgs with
                   | Some message =>
                       if isLoggerLevel level && forallb isFieldLink fields
                       then Returns (Some (flatStmt level message
                                             (omap convertLink fields) Decs))
                       else Returns None
                   | None => Panics "index out of range"
                   end).
  { intros largs termFunc termArgs. rewrite visitExprStmt_spine.
    destruct (negb (isTerminator termFunc)); [reflexivity|].
    destruct (mkChain_is_call root (level, largs) fields) as (F & A & Hcall).
    unfold extractSpine. destruct (Hspine largs) as [-> ->]. rewrite Hcall.
    destruct (messageOf termFunc termArgs); [|reflexivity].
    cbn [fst]. destruct (isLoggerLevel level && forallb isFieldLink fields); reflexivity. }
  rewrite !Visit_replacementOf. unfold chainStmt. cbn [replacementOf].
  destruct term as [termFunc termArgs]. unfold addLink at 1 2 3 4. cbn [fst snd].
  rewrite !Hsame. split; reflexivity.
Qed.

(** ** Panics and finality *)

(** X10: [Visit] panics on exactly one shape of node: an expression
    statement [chain.Msg()] or [chain.Msgf()] with no argument whose
    receiver is a call. *)
Theorem Visit_panics_iff (v : RewriteVisitor) (id : NodeId) (node : Node) :
  (exists msg, Visit v id node = Panics msg) <->
  exists Fun Args termFunc Decs,
    node = ExprStmt (CallExpr (SelectorExpr (CallExpr Fun Args) termFunc) []) Decs /\
    oneOf termFunc ["Msg"; "Msgf"] = true.
Proof.
  rewrite <- replacementOf_panics_iff. rewrite Visit_replacementOf.
  destruct (replacementOf node) as [[new|]|msg]; cbn [mbind outcome_bind].
  - split; intros [msg H]; discriminate.
  - split; intros [msg H]; discriminate.
  - split; intros _; exists msg; reflexivity.
Qed.

(** X11: what [Visit] records is final: whenever it records a
    replacement, [Visit] on that replacement records nothing. *)
Theorem recorded_replacement_is_final (v v' : RewriteVisitor) (id : NodeId)
    (node : Node) :
  Visit v id node = Returns (v', false) ->
  exists new,
    v' = record v id new /\
    forall v2 id2, Visit v2 id2 new = Returns (v2, true).
Proof.
  rewrite Visit_replacementOf.
  destruct (replacementOf node) as [[new|]|] eqn:Hrep; cbn [mbind outcome_bind];
    intros H; try discriminate.
  injection H as <-. exists new. split; [reflexivity|].
  intros v2 id2. rewrite Visit_replacementOf.
  rewrite (replacement_not_rematched _ _ Hrep). reflexivity.
Qed.

Lemma recorded_replacement_is_final_witness :
  exists new,
    record newVisitor [0]
      (flatStmt "Info" (lit "m") [slogCall "String" [lit "k"; lit "v"]] noDecs)
      = record newVisitor [0] new /\
    forall v2 id2, Visit v2 id2 new = Returns (v2, true).
Proof.
  apply (recorded_replacement_is_final newVisitor _ [0] stmtUnknownField).
  reflexivity.
Defined.

(** ** The first pass as a function of positions *)

Lemma walkList_recordsExactly (id : NodeId) (l : list Node) :
  Forall recordsExactly l ->
  forall v i v1,
    walkList (fun v i n => Walk v (id ++ [i]) n) v i l = Returns v1 ->
  forall j p,
    Replacements v1 !! ((id ++ [j]) ++ p)
    = match (if decide (i <= j) then l !! (j - i) else None)
              ≫= (fun c => recorded c p) with
      | Some new => Some new
      | None => Replacements v !! ((id ++ [j]) ++ p)
      end.
Proof.
  induction 1 as [|n l Hn _ IH]; intros v i v1 Hwalk j p.
  - cbn in Hwalk. injection Hwalk as <-.
    destruct (decide (i <= j)); reflexivity.
  - cbn [walkList] in Hwalk.
    destruct (Walk v (id ++ [i]) n) as [vmid|] eqn:Hhead; [|discriminate].
    cbn [mbind outcome_bind] in Hwalk.
    rewrite (IH _ _ _ Hwalk j p).
    destruct (decide (i <= j)) as [Hij|Hij].
    + destruct (decide (j = i)) as [->|Hne].
      * rewrite decide_False by lia. cbn [mbind option_bind].
        replace (i - i) with 0 by lia. cbn [lookup list_lookup mbind option_bind].
        apply (Hn _ _ _ Hhead).
      * rewrite decide_True by lia.
        replace (j - i) with (S (j - S i)) by lia. cbn [lookup list_lookup].
        rewrite (Walk_frame n _ _ _ Hhead); [reflexivity|].
        intros p'. apply siblings_apart. exact Hne.
    + rewrite decide_False by lia. cbn [mbind option_bind].
      apply (Walk_frame n _ _ _ Hhead).
      intros p'. apply siblings_apart. lia.
Qed.

Lemma Walk_recordsExactly (node : Node) : recordsExactly node.
Proof.
  induction node as [node IH] using Node_children_ind.
  intros v id v1 Hwalk p. rewrite Walk_unfold in Hwalk.
  destruct (replacementOf node) as [[new|]|] eqn:Hrep;
    cbn [mbind outcome_bind] in Hwalk; [| |discriminate].
  - injection Hwalk as <-. rewrite lookup_record.
    destruct p as [|i p]; cbn [recorded]; rewrite Hrep.
    + rewrite app_nil_r, decide_True by reflexivity. reflexivity.
    + rewrite decide_False; [reflexivity|].
      intros H. apply (f_equal length) in H. rewrite length_app in H. cbn in H. lia.
  - unfold walkChildren in Hwalk.
    destruct p as [|i p]; cbn [recorded]; rewrite Hrep.
    + rewrite app_nil_r.
      apply (walkList_frame id _ (Forall_framed _) _ _ _ Hwalk).
      intros j p' _. apply id_not_below.
    + change (id ++ i :: p) with (id ++ [i] ++ p). rewrite app_assoc.
      rewrite (walkList_recordsExactly id _ IH _ _ _ Hwalk i p).
      rewrite decide_True by lia. replace (i - 0) with i by lia.
      destruct (children node !! i); reflexivity.
Qed.

(** X12: the Replacement Map collected from a file holds, at every
    position, exactly the replacement of the node at that position
    provided none of the nodes above it was replaced, and nothing at any
    other position: every convertible statement or import that is not
    inside a replaced statement is found, wherever it is nested. *)
Theorem Replacements_are_recorded (file : Node) (v : RewriteVisitor) (q : list nat) :
  Walk newVisitor [] file = Returns v ->
  Replacements v !! q = recorded file q.
Proof.
  intros Hwalk. pose proof (Walk_recordsExactly file _ [] _ Hwalk q) as H.
  cbn [app] in H. rewrite H.
  destruct (recorded file q); [reflexivity|]. apply lookup_empty.
Qed.

Lemma Replacements_are_recorded_witness :
  exists v,
    Walk newVisitor [] fileFlat = Returns v /\
    Replacements v !! [2; 2; 1] = recorded fileFlat [2; 2; 1] /\
    recorded fileFlat [2; 2; 1] = Some (flatStmt "Debug" (lit "inner") [] noDecs).
Proof.
  eexists. split; [vm_compute; reflexivity|]. split.
  - eapply (Replacements_are_recorded fileFlat). vm_compute. reflexivity.
  - vm_compute. reflexivity.
Defined.

(** X13: [Walk] at a node writes only at positions at or below the node;
    every entry recorded elsewhere is still there, unchanged. *)
Theorem Walk_writes_only_below (v v1 : RewriteVisitor) (id : NodeId) (node : Node)
    (q : list nat) :
  Walk v id node = Returns v1 ->
  ~ id `prefix_of` q ->
  Replacements v1 !! q = Replacements v !! q.
Proof.
  intros Hwalk Hq. apply (Walk_frame node _ _ _ Hwalk).
  intros p ->. apply Hq. exists p. reflexivity.
Qed.

Lemma Walk_writes_only_below_witness :
  exists v1,
    Walk (record newVisitor [1; 0]
            (ImportSpec None {| Kind := STRING; Value := slogImport |} noDecs))
         [2; 2; 1] stmtInner = Returns v1 /\
    Replacements v1 !! [1; 0]
      = Replacements (record newVisitor [1; 0]
          (ImportSpec None {| Kind := STRING; Value := slogImport |} noDecs)) !! [1; 0].
Proof.
  eexists. split; [vm_compute; reflexivity|].
  eapply (Walk_writes_only_below _ _ [2; 2; 1] stmtInner [1; 0]).
  - vm_compute. reflexivity.
  - intros [k Hk]. discriminate.
Defined.

(** X14: in the map collected from a file no recorded position lies
    below another recorded position. *)
Theorem recorded_positions_not_nested (file : Node) (v : RewriteVisitor)
    (q q' : list nat) :
  Walk newVisitor [] file = Returns v ->
  is_Some (Replacements v !! q) -> is_Some (Replacements v !! q') ->
  q `prefix_of` q' -> q = q'.
Proof.
  intros Hwalk Hq Hq' [p ->].
  destruct p as [|i p]; [rewrite app_nil_r; reflexivity|].
  rewrite (Walk_keys_apart file v q (i :: p) Hwalk Hq) in Hq' by discriminate.
  destruct Hq'; discriminate.
Qed.

Lemma recorded_positions_not_nested_witness :
  exists v,
    Walk newVisitor [] fileNested = Returns v /\
    is_Some (Replacements v !! [2; 2; 0]) /\
    [2; 2; 0] = [2; 2; 0].
Proof.
  eexists. split; [vm_compute; reflexivity|].
  split; [vm_compute; eexists; reflexivity|].
  eapply (recorded_positions_not_nested fileNested).
  - vm_compute. reflexivity.
  - vm_compute. eexists. reflexivity.
  - vm_compute. eexists. reflexivity.
  - exists []. reflexivity.
Defined.

(** ** The two passes as one rewriting *)

Lemma rewriteTree_unfold (node : Node) :
  rewriteTree node =
    match replacementOf node with
    | Returns (Some new) => new
    | Returns None => withChildren node (map rewriteTree (children node))
    | Panics _ => node
    end.
Proof.
  destruct node; reflexivity.
Qed.

Lemma recorded_Panics (node : Node) (msg : string) (p : list nat) :
  replacementOf node = Panics msg -> recorded node p = None.
Proof. intros H. destruct p; cbn [recorded]; rewrite H; reflexivity. Qed.

Lemma applyList_recorded (m : gmap NodeId Node) (id : NodeId) (l : list Node) :
  Forall (fun n => forall id, (forall p, m !! (id ++ p) = recorded n p) ->
                              Apply m id n = rewriteTree n) l ->
  forall i,
    (forall k c, l !! k = Some c ->
                 forall p, m !! ((id ++ [i + k]) ++ p) = recorded c p) ->
    applyList (fun i n => Apply m (id ++ [i]) n) i l = map rewriteTree l.
Proof.
  induction 1 as [|n l Hn _ IH]; intros i Hm; [reflexivity|].
  cbn [applyList map]. f_equal.
  - apply Hn. intros p. specialize (Hm 0 n eq_refl p).
    replace (i + 0) with i in Hm by lia. exact Hm.
  - apply IH. intros k c Hk p. specialize (Hm (S k) c Hk p).
    replace (i + S k) with (S i + k) in Hm by lia. exact Hm.
Qed.

(** The second pass, given the map the first pass collects, is the
    one-pass rewriting. *)
Lemma Apply_recorded (m : gmap NodeId Node) (node : Node) :
  forall id, (forall p, m !! (id ++ p) = recorded node p) ->
  Apply m id node = rewriteTree node.
Proof.
  induction node as [node IH] using Node_children_ind. intros id Hm.
  rewrite rewriteTree_unfold.
  destruct (replacementOf node) as [[new|]|msg] eqn:Hrep.
  - rewrite Apply_unfold. specialize (Hm []). rewrite app_nil_r in Hm.
    cbn [recorded] in Hm. rewrite Hrep in Hm. rewrite Hm. reflexivity.
  - rewrite Apply_unfold. pose proof (Hm []) as Hid. rewrite app_nil_r in Hid.
    cbn [recorded] in Hid. rewrite Hrep in Hid. rewrite Hid. f_equal.
    apply applyList_recorded; [exact IH|].
    intros k c Hk p. rewrite <- app_assoc. cbn [app plus].
    rewrite (Hm (k :: p)). cbn [recorded]. rewrite Hrep, Hk. reflexivity.
  - apply Apply_untouched. intros p. rewrite Hm.
    eapply recorded_Panics, Hrep.
Qed.

(** X15: collecting the replacements in one traversal and substituting
    them in a second one gives the tree rewritten in one pass: every node
    the statement matcher replaces, and that is not inside a replaced
    one, is its replacement, and every other node keeps its kind, names
    and decorations over its rewritten children. *)
Theorem transform_is_rewriteTree (file out : Node) (v : RewriteVisitor) :
  transform file = Returns (v, out) -> out = rewriteTree file.
Proof.
  unfold transform. intros H.
  destruct (Walk newVisitor [] file) as [v1|] eqn:Hwalk; [|discriminate].
  cbn [mbind outcome_bind] in H. injection H as <- <-.
  apply Apply_recorded. intros p. cbn [app].
  pose proof (Walk_recordsExactly file _ [] _ Hwalk p) as Hp. cbn [app] in Hp.
  rewrite Hp. destruct (recorded file p); [reflexivity|]. apply lookup_empty.
Qed.

Lemma transform_is_rewriteTree_witness :
  exists v out,
    transform fileNoImport = Returns (v, out) /\ out = rewriteTree fileNoImport.
Proof.
  eexists _, _. split; [vm_compute; reflexivity|].
  eapply (transform_is_rewriteTree fileNoImport). vm_compute. reflexivity.
Defined.

(** ** Nothing to replace *)

Lemma walkList_returns_matchFree (id : NodeId) (l : list Node) :
  Forall (fun n => forall v id v1, Walk v id n = Returns v1 ->
                   (forall p, recorded n p = None) -> matchFree n = true) l ->
  forall v i v1,
    walkList (fun v i n => Walk v (id ++ [i]) n) v i l = Returns v1 ->
    (forall k c, l !! k = Some c -> forall p, recorded c p = None) ->
    forallb matchFree l = true.
Proof.
  induction 1 as [|n l Hn _ IH]; intros v i v1 Hwalk Hnone; [reflexivity|].
  cbn [walkList] in Hwalk.
  destruct (Walk v (id ++ [i]) n) as [vmid|] eqn:Hhead; [|discriminate].
  cbn [mbind outcome_bind] in Hwalk. cbn [forallb].
  rewrite (Hn _ _ _ Hhead (Hnone 0 n eq_refl)). cbn [andb].
  apply (IH _ _ _ Hwalk). intros k c Hk. apply (Hnone (S k) c Hk).
Qed.

Lemma Walk_returns_matchFree (node : Node) :
  forall v id v1, Walk v id node = Returns v1 ->
  (forall p, recorded node p = None) -> matchFree node = true.
Proof.
  induction node as [node IH] using Node_children_ind.
  intros v id v1 Hwalk Hnone. rewrite Walk_unfold in Hwalk.
  rewrite matchFree_unfold.
  pose proof (Hnone []) as Hroot. cbn [recorded] in Hroot.
  destruct (replacementOf node) as [[new|]|] eqn:Hrep;
    cbn [mbind outcome_bind] in Hwalk; try discriminate.
  cbn [isNoMatch andb]. unfold walkChildren in Hwalk.
  apply (walkList_returns_matchFree id _ IH _ _ _ Hwalk).
  intros k c Hk p. specialize (Hnone (k :: p)). cbn [recorded] in Hnone.
  rewrite Hrep, Hk in Hnone. exact Hnone.
Qed.

(** X16: the first pass ends with an empty Replacement Map (the case in
    which [processFile] reports that there is nothing to transform)
    exactly when no node of the file is matched by the statement
    matcher. *)
Theorem no_replacements_iff_matchFree (file : Node) (v : RewriteVisitor) :
  Walk newVisitor [] file = Returns v ->
  (Replacements v = ∅ <-> matchFree file = true).
Proof.
  intros Hwalk. split.
  - intros Hempty. apply (Walk_returns_matchFree file _ _ _ Hwalk).
    intros p. pose proof (Walk_recordsExactly file _ [] _ Hwalk p) as Hp.
    cbn [app] in Hp. rewrite Hempty, lookup_empty in Hp.
    destruct (recorded file p); [discriminate|reflexivity].
  - intros Hfree. rewrite (matchFree_Walk file Hfree) in Hwalk.
    injection Hwalk as <-. reflexivity.
Qed.

Lemma no_replacements_iff_matchFree_witness :
  exists v,
    Walk newVisitor [] (funcDecl "main" [stmtFieldLogger]) = Returns v /\
    (Replacements v = ∅ <-> matchFree (funcDecl "main" [stmtFieldLogger]) = true).
Proof.
  eexists. split; [vm_compute; reflexivity|].
  eapply (no_replacements_iff_matchFree (funcDecl "main" [stmtFieldLogger])).
  vm_compute. reflexivity.
Defined.

(** X17: the rewriting pass gives back unchanged every subtree that has
    no key of the map at or below it. *)
Theorem untouched_subtree_unchanged (replacements : gmap NodeId Node) (id : NodeId)
    (node : Node) :
  (forall q, id `prefix_of` q -> replacements !! q = None) ->
  Apply replacements id node = node.
Proof.
  intros H. apply Apply_untouched. intros p. apply H. exists p. reflexivity.
Qed.

Lemma untouched_subtree_unchanged_witness :
  Apply {[ [2; 2; 1] := flatStmt "Debug" (lit "inner") [] noDecs ]} [2; 2; 0]
        stmtUnknownField
  = stmtUnknownField.
Proof.
  apply (untouched_subtree_unchanged _ [2; 2; 0] stmtUnknownField).
  intros q [p ->]. apply lookup_singleton_ne. discriminate.
Defined.

(** ** Trees on which the traversal returns *)

Lemma noBareMsg_unfold (node : Node) :
  noBareMsg node = negb (bareMsg node) && forallb noBareMsg (children node).
Proof.
  destruct node; cbn [noBareMsg children forallb]; rewrite ?andb_true_r; reflexivity.
Qed.

Lemma bareMsg_of_panic (node : Node) (msg : string) :
  replacementOf node = Panics msg -> bareMsg node = true.
Proof.
  intros H.
  assert (Hex : exists msg, replacementOf node = Panics msg) by (eexists; exact H).
  apply replacementOf_panics_iff in Hex as (Fun & Args & termFunc & D & -> & Hterm).
  exact Hterm.
Qed.

Lemma walkList_returns (id : NodeId) (l : list Node) :
  Forall (fun n => noBareMsg n = true ->
                   forall v id, exists v1, Walk v id n = Returns v1) l ->
  forallb noBareMsg l = true ->
  forall v i, exists v1,
    walkList (fun v i n => Walk v (id ++ [i]) n) v i l = Returns v1.
Proof.
  induction 1 as [|n l Hn _ IH]; intros Hok v i; [eexists; reflexivity|].
  cbn [forallb] in Hok. apply andb_true_iff in Hok as [Hhead Htail].
  cbn [walkList]. destruct (Hn Hhead v (id ++ [i])) as [vmid ->].
  cbn [mbind outcome_bind]. apply IH, Htail.
Qed.

Lemma Walk_returns (node : Node) :
  noBareMsg node = true -> forall v id, exists v1, Walk v id node = Returns v1.
Proof.
  induction node as [node IH] using Node_children_ind.
  intros Hok v id. rewrite noBareMsg_unfold in Hok.
  apply andb_true_iff in Hok as [Hnode Hbelow].
  rewrite Walk_unfold.
  destruct (replacementOf node) as [[new|]|msg] eqn:Hrep; cbn [mbind outcome_bind].
  - eexists; reflexivity.
  - unfold walkChildren. apply walkList_returns; assumption.
  - apply bareMsg_of_panic in Hrep. rewrite Hrep in Hnode. discriminate.
Qed.

(** X18: on a tree that holds no statement [chain.Msg()] or
    [chain.Msgf()] without arguments, both passes complete: the
    traversal returns a Replacement Map and the rewriting returns a
    tree. *)
Theorem transform_returns (file : Node) :
  noBareMsg file = true ->
  exists v out, transform file = Returns (v, out).
Proof.
  intros Hok. unfold transform.
  destruct (Walk_returns file Hok newVisitor []) as [v ->].
  cbn [mbind outcome_bind]. eexists _, _. reflexivity.
Qed.

Lemma transform_returns_witness :
  exists v out, transform fileNested = Returns (v, out).
Proof. apply (transform_returns fileNested). vm_compute. reflexivity. Defined.

(** ** [processFile] *)

Lemma files_printOut (w : World) (s : string) : files (printOut w s) = files w.
Proof. reflexivity. Qed.

Lemma Walk_empty_matchFree (file : Node) (v : RewriteVisitor) :
  Walk newVisitor [] file = Returns v ->
  size (Replacements v) = 0 -> matchFree file = true.
Proof.
  intros Hwalk Hsize. apply map_size_empty_iff in Hsize.
  apply (Walk_returns_matchFree file _ _ _ Hwalk).
  intros p. pose proof (Walk_recordsExactly file _ [] _ Hwalk p) as Hp.
  cbn [app] in Hp. rewrite Hsize, lookup_empty in Hp.
  destruct (recorded file p); [discriminate|reflexivity].
Qed.

(** What [processFile] does to the file system, whatever it returns:
    nothing, or the named file is set to the print of the rewritten
    tree, and that only with [replace]. *)
Lemma processFile_files (E : Externals) (w w' : World) (filename : string)
    (replace : bool) (err : option string) :
  processFile E w filename replace = Returns (w', err) ->
  files w' = files w \/
  (replace = true /\ err = None /\
   exists a node content,
     ParseFile E (files w) filename = inl a /\
     DecorateFile E a = inl node /\
     matchFree node = false /\
     Fprint E (rewriteTree node) = inl content /\
     files w' = <[filename := content]> (files w)).
Proof.
  unfold processFile.
  destruct (ParseFile E (files w) filename) as [a|e] eqn:Hparse;
    [|intros [= <- <-]; left; reflexivity].
  destruct (DecorateFile E a) as [node|e] eqn:Hdec;
    [|intros [= <- <-]; left; reflexivity].
  destruct (Walk newVisitor [] node) as [v|] eqn:Hwalk; [|discriminate].
  cbn [mbind outcome_bind].
  destruct (Nat.eqb_spec (size (Replacements v)) 0) as [Hsize|Hsize];
    [intros [= <- <-]; left; reflexivity|].
  unfold replaceAndPrintDST.
  assert (Hout : Apply (Replacements v) [] node = rewriteTree node).
  { apply Apply_recorded. intros p. cbn [app].
    pose proof (Walk_recordsExactly node _ [] _ Hwalk p) as Hp. cbn [app] in Hp.
    rewrite Hp. destruct (recorded node p); [reflexivity|]. apply lookup_empty. }
  rewrite Hout.
  destruct (Fprint E (rewriteTree node)) as [content|e] eqn:Hprint;
    [|intros [= <- <-]; left; reflexivity].
  destruct replace; cbn [negb]; [|intros [= <- <-]; left; reflexivity].
  unfold WriteFile. cbn [files printOut].
  destruct (WriteFile_error E (files w) filename);
    [intros [= <- <-]; left; reflexivity|].
  intros [= <- <-]. right. split; [reflexivity|]. split; [reflexivity|].
  exists a, node, content. repeat split; try assumption.
  destruct (matchFree node) eqn:Hfree; [|reflexivity].
  exfalso. rewrite (matchFree_Walk node Hfree) in Hwalk. injection Hwalk as <-.
  apply Hsize. reflexivity.
Qed.

Lemma nothing_to_transform_aux (E : Externals) (w : World) (filename : string)
    (replace : bool) (a : Ast E) (node : Node) :
  ParseFile E (files w) filename = inl a ->
  DecorateFile E a = inl node ->
  matchFree node = true ->
  processFile E w filename replace
    = Returns (printOut w ("  ✅ No zerolog calls found to transform." +:+ nl), None).
Proof.
  intros Hparse Hdec Hfree. unfold processFile. rewrite Hparse, Hdec.
  rewrite (matchFree_Walk node Hfree). reflexivity.
Qed.

(** X19: without [replace] (the dry run) [processFile] leaves the whole
    file system as it was, whatever it returns. *)
Theorem dry_run_writes_nothing (E : Externals) (w w' : World) (filename : string)
    (err : option string) :
  processFile E w filename false = Returns (w', err) -> files w' = files w.
Proof.
  intros H. apply processFile_files in H as [H|(Hr & _)]; [exact H|discriminate].
Qed.

Lemma dry_run_writes_nothing_witness :
  exists w' err,
    processFile toyExternals toyWorld "a.go" false = Returns (w', err) /\
    files w' = files toyWorld.
Proof.
  eexists _, _. split; [vm_compute; reflexivity|].
  eapply (dry_run_writes_nothing toyExternals toyWorld _ "a.go").
  vm_compute. reflexivity.
Defined.

(** X20: [processFile] never changes a file other than the one it is
    given. *)
Theorem other_files_untouched (E : Externals) (w w' : World) (filename other : string)
    (replace : bool) (err : option string) :
  processFile E w filename replace = Returns (w', err) ->
  other <> filename ->
  files w' !! other = files w !! other.
Proof.
  intros H Hne.
  apply processFile_files in H as [->|(_ & _ & a & node & content & _ & _ & _ & _ & ->)];
    [reflexivity|].
  apply lookup_insert_ne. congruence.
Qed.

Lemma other_files_untouched_witness :
  exists w' err,
    processFile toyExternals toyWorld "a.go" true = Returns (w', err) /\
    files w' !! "b.go" = files toyWorld !! "b.go".
Proof.
  eexists _, _. split; [vm_compute; reflexivity|].
  eapply (other_files_untouched toyExternals toyWorld _ "a.go" "b.go" true).
  - vm_compute. reflexivity.
  - discriminate.
Defined.

(** X21: on a file in which the statement matcher matches nothing,
    [processFile] returns nil after one line of output and writes
    nothing, with or without [replace]. *)
Theorem nothing_to_transform (E : Externals) (w : World) (filename : string)
    (replace : bool) (a : Ast E) (node : Node) :
  ParseFile E (files w) filename = inl a ->
  DecorateFile E a = inl node ->
  matchFree node = true ->
  processFile E w filename replace
    = Returns (printOut w ("  ✅ No zerolog calls found to transform." +:+ nl), None).
Proof.
  apply nothing_to_transform_aux.
Qed.

Lemma nothing_to_transform_witness :
  processFile toyExternals toyWorld "b.go" true
    = Returns (printOut toyWorld ("  ✅ No zerolog calls found to transform." +:+ nl),
               None).
Proof.
  apply (nothing_to_transform toyExternals toyWorld "b.go" true
           (funcDecl "main" [stmtFieldLogger]) (funcDecl "main" [stmtFieldLogger]));
    reflexivity.
Defined.

(** X22: when [processFile] with [replace] returns nil on a file with
    something to replace, the named file holds the print of the tree
    rewritten in one pass; it is left as it was when there was nothing to
    replace. *)
Theorem overwritten_with_rewritten_tree (E : Externals) (w w' : World)
    (filename : string) (a : Ast E) (node : Node) :
  ParseFile E (files w) filename = inl a ->
  DecorateFile E a = inl node ->
  processFile E w filename true = Returns (w', None) ->
  if matchFree node
  then files w' = files w
  else exists content,
         Fprint E (rewriteTree node) = inl content /\
         files w' = <[filename := content]> (files w).
Proof.
  intros Hparse Hdec Hrun.
  destruct (matchFree node) eqn:Hfree.
  - rewrite (nothing_to_transform_aux E w filename true a node Hparse Hdec Hfree) in Hrun.
    injection Hrun as <-. reflexivity.
  - revert Hrun. unfold processFile. rewrite Hparse, Hdec.
    destruct (Walk newVisitor [] node) as [v|] eqn:Hwalk; [|discriminate].
    cbn [mbind outcome_bind].
    destruct (Nat.eqb_spec (size (Replacements v)) 0) as [Hsize|Hsize].
    { rewrite (Walk_empty_matchFree node v Hwalk Hsize) in Hfree. discriminate. }
    unfold replaceAndPrintDST.
    assert (Hout : Apply (Replacements v) [] node = rewriteTree node).
    { apply Apply_recorded. intros p. cbn [app].
      pose proof (Walk_recordsExactly node _ [] _ Hwalk p) as Hp. cbn [app] in Hp.
      rewrite Hp. destruct (recorded node p); [reflexivity|]. apply lookup_empty. }
    rewrite Hout.
    destruct (Fprint E (rewriteTree node)) as [content|e]; [|discriminate].
    cbn [negb]. unfold WriteFile. cbn [files printOut].
    destruct (WriteFile_error E (files w) filename); [discriminate|].
    intros [= <-]. exists content. split; reflexivity.
Qed.

Lemma overwritten_with_rewritten_tree_witness :
  exists w',
    processFile toyExternals toyWorld "a.go" true = Returns (w', None) /\
    exists content,
      Fprint toyExternals (rewriteTree fileFlat) = inl content /\
      files w' = <["a.go" := content]> (files toyWorld).
Proof.
  eexists. split; [vm_compute; reflexivity|].
  apply (overwritten_with_rewritten_tree toyExternals toyWorld _ "a.go"
           fileFlat fileFlat eq_refl eq_refl).
  vm_compute. reflexivity.
Defined.

(** ** [main] *)

Lemma walkFn_files (E : Externals) (replace : bool) (w w' : World)
    (entry : WalkEntry) (r : option string) :
  walkFn E replace w entry = Returns (w', r) ->
  files w' = files w \/
  (replace = true /\
   exists path content,
     entry = (path, false, None) /\ Ext path = ".go" /\
     files w' = <[path := content]> (files w)).
Proof.
  destruct entry as [[path isDir] err]. unfold walkFn.
  destruct err as [e|]; [intros [= <- <-]; left; reflexivity|].
  destruct isDir; cbn [orb]; [intros [= <- <-]; left; reflexivity|].
  destruct (String.eqb_spec (Ext path) ".go") as [Hext|Hext]; cbn [negb];
    [|intros [= <- <-]; left; reflexivity].
  destruct (processFile E _ path replace) as [[w1 r1]|] eqn:Hrun; [|discriminate].
  cbn [mbind outcome_bind fst snd].
  assert (Hfiles : files w1 = files w \/
            (replace = true /\ exists content, files w1 = <[path := content]> (files w))).
  { apply processFile_files in Hrun
      as [H|(Hr & _ & a & node & content & _ & _ & _ & _ & H)].
    - left. exact H.
    - right. split; [exact Hr|]. exists content. exact H. }
  clear Hrun. destruct r1; intros [= <- <-]; cbn [files printOut];
    (destruct Hfiles as [H|(Hr & content & H)];
     [left; exact H
     |right; split; [exact Hr|]; exists path, content; repeat split; assumption]).
Qed.

(** Every file of the file system is as it was, or [replace] is set and
    the file is one of the walk's regular [.go] entries. *)
Lemma walkEntries_files (E : Externals) (replace : bool) (entries : list WalkEntry) :
  forall w w' r,
    walkEntries E replace w entries = Returns (w', r) ->
    forall name,
      files w' !! name = files w !! name \/
      (replace = true /\ In (name, false, None) entries /\ Ext name = ".go").
Proof.
  induction entries as [|entry rest IH]; intros w w' r Hrun name.
  - cbn in Hrun. injection Hrun as <- <-. left. reflexivity.
  - cbn [walkEntries] in Hrun.
    destruct (walkFn E replace w entry) as [[w1 r1]|] eqn:Hfn; [|discriminate].
    cbn [mbind outcome_bind fst snd] in Hrun.
    assert (Hstep : files w1 !! name = files w !! name \/
              (replace = true /\ entry = (name, false, None) /\ Ext name = ".go")).
    { apply walkFn_files in Hfn as [->|(Hr & path & content & -> & Hext & ->)].
      - left. reflexivity.
      - destruct (decide (path = name)) as [->|Hne].
        + right. repeat split; assumption.
        + left. apply lookup_insert_ne. exact Hne. }
    destruct r1 as [e|].
    + injection Hrun as <- <-.
      destruct Hstep as [H|(Hr & -> & Hext)]; [left; exact H|].
      right. repeat split; [exact Hr|left; reflexivity|exact Hext].
    + destruct (IH _ _ _ Hrun name) as [H|(Hr & Hin & Hext)].
      * rewrite H.
        destruct Hstep as [H'|(Hr & -> & Hext)]; [left; exact H'|].
        right. repeat split; [exact Hr|left; reflexivity|exact Hext].
      * right. repeat split; [exact Hr|right; exact Hin|exact Hext].
Qed.

Lemma main_files (E : Externals) (w w' : World) (dirPath : string) (replace : bool)
    (x : Exit) (name : string) :
  main E w dirPath replace = Returns (w', x) ->
  files w' !! name = files w !! name \/
  (replace = true /\ In (name, false, None) (WalkDir E (files w) dirPath) /\
   Ext name = ".go").
Proof.
  unfold main. destruct (String.eqb dirPath EmptyString);
    [intros [= <- <-]; left; reflexivity|].
  cbn [files printOut].
  destruct (walkEntries E replace _ _) as [[w1 r1]|] eqn:Hrun; [|discriminate].
  cbn [mbind outcome_bind fst snd].
  apply walkEntries_files with (name := name) in Hrun. cbn [files printOut] in Hrun.
  destruct r1; intros [= <- <-]; exact Hrun.
Qed.

(** X23: a run of [main] without [-replace] leaves every file of the file
    system as it was. *)
Theorem main_dry_run_writes_nothing (E : Externals) (w w' : World) (dirPath : string)
    (x : Exit) :
  main E w dirPath false = Returns (w', x) -> files w' = files w.
Proof.
  intros Hrun. apply map_eq. intros name.
  destruct (main_files E w w' dirPath false x name Hrun) as [H|(Hr & _)];
    [exact H|discriminate].
Qed.

Lemma main_dry_run_writes_nothing_witness :
  exists w' x,
    main toyExternals toyTree "src" false = Returns (w', x) /\
    files w' = files toyTree.
Proof.
  eexists _, _. split; [vm_compute; reflexivity|].
  eapply (main_dry_run_writes_nothing toyExternals toyTree _ "src").
  vm_compute. reflexivity.
Defined.

(** X24: a run of [main] changes only files that the directory walk
    lists as regular files with the extension [.go], and only with
    [-replace]. *)
Theorem main_changes_only_go_files (E : Externals) (w w' : World) (dirPath : string)
    (replace : bool) (x : Exit) (name : string) :
  main E w dirPath replace = Returns (w', x) ->
  files w' !! name <> files w !! name ->
  replace = true /\
  In (name, false, None) (WalkDir E (files w) dirPath) /\
  Ext name = ".go".
Proof.
  intros Hrun Hne.
  destruct (main_files E w w' dirPath replace x name Hrun) as [H|H];
    [contradiction|exact H].
Qed.

Lemma main_changes_only_go_files_witness :
  exists w' x,
    main toyExternals toyTree "src" true = Returns (w', x) /\
    files w' !! "src/a.go" = Some "converted" /\
    In ("src/a.go", false, None) (WalkDir toyExternals (files toyTree) "src") /\
    Ext "src/a.go" = ".go".
Proof.
  eexists _, _. split; [vm_compute; reflexivity|].
  split; [vm_compute; reflexivity|].
  eapply (main_changes_only_go_files toyExternals toyTree _ "src" true).
  - vm_compute. reflexivity.
  - vm_compute. discriminate.
Defined.

Lemma walkEntries_error (E : Externals) (replace : bool) (entries : list WalkEntry) :
  forall w w' e,
    walkEntries E replace w entries = Returns (w', Some e) ->
    exists path isDir, In (path, isDir, Some e) entries.
Proof.
  induction entries as [|entry rest IH]; intros w w' e Hrun; [discriminate|].
  cbn [walkEntries] in Hrun.
  destruct (walkFn E replace w entry) as [[w1 r1]|] eqn:Hfn; [|discriminate].
  cbn [mbind outcome_bind fst snd] in Hrun.
  destruct r1 as [e1|].
  - injection Hrun as <- <-.
    destruct entry as [[path isDir] err]. unfold walkFn in Hfn.
    destruct err as [e0|].
    + injection Hfn as <- <-. exists path, isDir. left. reflexivity.
    + destruct (isDir || negb (String.eqb (Ext path) ".go")); [discriminate|].
      destruct (processFile E _ path replace) as [[w2 r2]|]; [|discriminate].
      cbn [mbind outcome_bind fst snd] in Hfn. destruct r2; discriminate.
  - destruct (IH _ _ _ Hrun) as (path & isDir & Hin).
    exists path, isDir. right. exact Hin.
Qed.

Lemma main_Fatal (E : Externals) (w w' : World) (dirPath : string) (replace : bool)
    (msg : string) :
  main E w dirPath replace = Returns (w', Fatal msg) ->
  dirPath = EmptyString \/
  exists path isDir e, In (path, isDir, Some e) (WalkDir E (files w) dirPath).
Proof.
  unfold main. destruct (String.eqb_spec dirPath EmptyString) as [->|_];
    [left; reflexivity|].
  destruct (walkEntries E replace _ _) as [[w1 r1]|] eqn:Hrun; [|discriminate].
  cbn [mbind outcome_bind fst snd]. destruct r1 as [e|]; [|discriminate].
  intros _. right. cbn [files printOut] in Hrun.
  apply walkEntries_error in Hrun as (path & isDir & Hin).
  exists path, isDir, e. exact Hin.
Qed.

(** A file [processFile] fails on: the failure is printed and the walk
    function returns nil. *)
Lemma walkFn_failure (E : Externals) (replace : bool) (w0 w1 : World)
    (path e : string) :
  Ext path = ".go" ->
  processFile E (printOut w0 ("Processing file: " +:+ path +:+ nl)) path replace
    = Returns (w1, Some e) ->
  walkFn E replace w0 (path, false, None)
    = Returns (printOut w1 ("  ❌ Failed to process " +:+ path +:+ ": " +:+ e +:+ nl),
               None).
Proof.
  intros Hext Hrun. unfold walkFn. rewrite Hext.
  change (false || negb (String.eqb ".go" ".go")) with false.
  rewrite Hrun. reflexivity.
Qed.

(** X25: [main] ends in [log.Fatal] only when no directory was given or
    the directory walk itself handed out an error. A [.go] file on which
    [processFile] returns an error does not end the run: the walk
    function prints the line "Failed to process <path>: <error>" on the
    standard output, returns nil, and the walk goes on with the next
    entry from there. *)
Theorem main_fatal_only_on_walk_error (E : Externals) (w : World)
    (dirPath : string) (replace : bool) :
  (forall w' msg,
      main E w dirPath replace = Returns (w', Fatal msg) ->
      dirPath = EmptyString \/
      exists path isDir e, In (path, isDir, Some e) (WalkDir E (files w) dirPath)) /\
  (forall w0 w1 path e rest,
      Ext path = ".go" ->
      processFile E (printOut w0 ("Processing file: " +:+ path +:+ nl)) path replace
        = Returns (w1, Some e) ->
      walkFn E replace w0 (path, false, None)
        = Returns (printOut w1 ("  ❌ Failed to process " +:+ path +:+ ": " +:+ e +:+ nl),
                   None) /\
      walkEntries E replace w0 ((path, false, None) :: rest)
        = walkEntries E replace
            (printOut w1 ("  ❌ Failed to process " +:+ path +:+ ": " +:+ e +:+ nl))
            rest).
Proof.
  split.
  - intros w' msg. apply main_Fatal.
  - intros w0 w1 path e rest Hext Hrun.
    pose proof (walkFn_failure E replace w0 w1 path e Hext Hrun) as Hfn.
    split; [exact Hfn|].
    cbn [walkEntries]. rewrite Hfn. reflexivity.
Qed.

(** In [src] the file [bad.go] does not parse: the failure is on the
    standard output, [a.go] after it is still rewritten, and [main]
    returns. A directory that cannot be read ends in [log.Fatal]. *)
Lemma main_fatal_only_on_walk_error_witness :
  (exists w',
      main toyExternalsBroken toyBroken "src" true = Returns (w', Done) /\
      In ("  ❌ Failed to process src/bad.go: parsing failed: syntax error" +:+ nl)
         (stdout w') /\
      files w' !! "src/a.go" = Some "converted") /\
  (exists w',
      main toyExternalsBroken toyBroken "missing" true
        = Returns (w', Fatal "Error during directory traversal: no such directory") /\
      ("missing" = EmptyString \/
       exists path isDir e,
         In (path, isDir, Some e)
            (WalkDir toyExternalsBroken (files toyBroken) "missing"))) /\
  walkFn toyExternalsBroken true toyBroken ("src/bad.go", false, None)
    = Returns (printOut (printOut toyBroken ("Processing file: src/bad.go" +:+ nl))
                 ("  ❌ Failed to process src/bad.go: parsing failed: syntax error" +:+ nl),
               None).
Proof.
  destruct (main_fatal_only_on_walk_error toyExternalsBroken toyBroken "missing" true)
    as [Hfatal Hfail].
  split; [|split].
  - eexists. split; [vm_compute; reflexivity|].
    split; [vm_compute; tauto|vm_compute; reflexivity].
  - eexists. split; [vm_compute; reflexivity|].
    eapply Hfatal. vm_compute. reflexivity.
  - apply (Hfail toyBroken _ "src/bad.go" "parsing failed: syntax error" []).
    + vm_compute. reflexivity.
    + vm_compute. reflexivity.
Defined.

(** ** Decorations throughout the file *)

Lemma replacement_Decorations (node new : Node) :
  replacementOf node = Returns (Some new) -> Decorations new = Decorations node.
Proof.
  destruct node as [| | | |X D|N P D|]; try discriminate; cbn [replacementOf].
  - intros H. apply visitExprStmt_Some in H as (? & ? & ? & ? & ? & ? & _ & _ & _ & ->).
    reflexivity.
  - destruct (String.eqb _ _); [|discriminate]. intros [= <-]. reflexivity.
Qed.

Lemma Decorations_withChildren (node : Node) (cs : list Node) :
  Decorations (withChildren node cs) = Decorations node.
Proof. destruct node; destruct cs as [|c [|c' cs]]; reflexivity. Qed.

(** The one-pass rewriting leaves the decorations of every node as they
    are. *)
Lemma Decorations_rewriteTree (node : Node) :
  Decorations (rewriteTree node) = Decorations node.
Proof.
  rewrite rewriteTree_unfold.
  destruct (replacementOf node) as [[new|]|] eqn:Hrep.
  - apply replacement_Decorations. exact Hrep.
  - apply Decorations_withChildren.
  - reflexivity.
Qed.

Lemma walkList_child_returns (id : NodeId) (l : list Node) :
  forall v i v1,
    walkList (fun v i n => Walk v (id ++ [i]) n) v i l = Returns v1 ->
  forall k c, l !! k = Some c ->
  exists va vb, Walk va (id ++ [i + k]) c = Returns vb.
Proof.
  induction l as [|n l IH]; intros v i v1 Hwalk k c Hk; [discriminate|].
  cbn [walkList] in Hwalk.
  destruct (Walk v (id ++ [i]) n) as [vmid|] eqn:Hhead; [|discriminate].
  cbn [mbind outcome_bind] in Hwalk.
  destruct k as [|k].
  - injection Hk as <-. replace (i + 0) with i by lia. eexists _, _. exact Hhead.
  - cbn [lookup list_lookup] in Hk.
    destruct (IH _ _ _ Hwalk k c Hk) as (va & vb & H).
    replace (i + S k) with (S i + k) by lia. eexists _, _. exact H.
Qed.

(** A position none of whose proper prefixes is recorded: the node there
    is visited, what is recorded there is its own replacement, and the
    rewritten tree holds the rewritten node at the same position. *)
Lemma visited_position (q : list nat) :
  forall node v id v1 n,
    Walk v id node = Returns v1 ->
    nodeAt node q = Some n ->
    (forall q1 q2, q = q1 ++ q2 -> q2 <> [] -> recorded node q1 = None) ->
    nodeAt (rewriteTree node) q = Some (rewriteTree n) /\
    recorded node q = recorded n [] /\
    exists va ida vb, Walk va ida n = Returns vb.
Proof.
  induction q as [|i q IH]; intros node v id v1 n Hwalk Hat Habove.
  - cbn in Hat. injection Hat as <-. split; [reflexivity|]. split; [reflexivity|].
    eexists _, _, _. exact Hwalk.
  - cbn [nodeAt] in Hat.
    destruct (children node !! i) as [c|] eqn:Hc; [|discriminate].
    pose proof (Habove [] (i :: q) eq_refl ltac:(discriminate)) as Hroot.
    cbn [recorded] in Hroot.
    rewrite Walk_unfold in Hwalk.
    destruct (replacementOf node) as [[new|]|] eqn:Hrep;
      cbn [mbind outcome_bind] in Hwalk; try discriminate.
    unfold walkChildren in Hwalk.
    destruct (walkList_child_returns id _ _ _ _ Hwalk i c Hc) as (va & vb & Hchild).
    destruct (IH c va _ vb n Hchild Hat) as (Hnode & Hrec & Hvisited).
    { intros q1 q2 -> Hq2.
      specialize (Habove (i :: q1) q2 eq_refl Hq2).
      cbn [recorded] in Habove. rewrite Hrep, Hc in Habove. exact Habove. }
    split; [|split; [|exact Hvisited]].
    + rewrite rewriteTree_unfold, Hrep. cbn [nodeAt].
      rewrite children_withChildren by apply length_map.
      rewrite list_lookup_fmap, Hc. cbn [fmap option_fmap option_map]. exact Hnode.
    + cbn [recorded]. rewrite Hrep, Hc. exact Hrec.
Qed.

(** What both passes make of a file. *)
Lemma transform_out (file out : Node) (v : RewriteVisitor) :
  transform file = Returns (v, out) ->
  Walk newVisitor [] file = Returns v /\
  (forall q, Replacements v !! q = recorded file q) /\
  out = rewriteTree file.
Proof.
  unfold transform. intros H.
  destruct (Walk newVisitor [] file) as [v1|] eqn:Hwalk; [|discriminate].
  cbn [mbind outcome_bind] in H. injection H as <- <-.
  assert (Hrec : forall q, Replacements v1 !! q = recorded file q).
  { intros q. pose proof (Walk_recordsExactly file _ [] _ Hwalk q) as Hq.
    cbn [app] in Hq. rewrite Hq.
    destruct (recorded file q); [reflexivity|]. apply lookup_empty. }
  split; [reflexivity|]. split; [exact Hrec|].
  apply Apply_recorded. intros p. cbn [app]. apply Hrec.
Qed.

(** *** Decorated nodes inside a replacement *)

Lemma decorated_slogCall (T : string) (args : list Node) :
  decorated (slogCall T args) = flat_map decorated args.
Proof. reflexivity. Qed.

Lemma decorated_wrapSecond (T conv : string) (args : list Node) (c : Node) :
  wrapSecond T conv args = Some c ->
  decorated c = flat_map decorated args.
Proof.
  intros H. apply wrapSecond_Some in H as (k & v & -> & ->).
  cbn. rewrite !app_nil_r. reflexivity.
Qed.

(** A converted field holds the decorated nodes of its arguments and no
    other. *)
Lemma decorated_convert (f : string) (args : list Node) (c : Node) :
  convertFieldToSlogAttr f args = Some c ->
  decorated c = flat_map decorated args.
Proof.
  rewrite convert_unfold.
  field_cases f;
    try (intros [= <-]; reflexivity);
    try (apply decorated_wrapSecond).
  destruct (Nat.eqb (length args) 2); [|discriminate].
  intros [= <-]. reflexivity.
Qed.

Lemma decorated_pushAttr (f : string) (args acc : list Node) :
  incl (flat_map decorated (pushAttr f args acc))
       (flat_map decorated args ++ flat_map decorated acc).
Proof.
  unfold pushAttr. destruct (convertFieldToSlogAttr f args) as [c|] eqn:Hc.
  - cbn [flat_map]. rewrite (decorated_convert _ _ _ Hc). apply incl_refl.
  - apply incl_appr, incl_refl.
Qed.

Lemma decorated_chainLoop (message : option Node) (current : Node) (acc : list Node) :
  incl (flat_map decorated (chainLoop message current acc).2)
       (decorated current ++ flat_map decorated acc).
Proof.
  revert current acc.
  apply (chainLoop_elim message
           (fun current acc r =>
              incl (flat_map decorated r.2) (decorated current ++ flat_map decorated acc))).
  - intros current acc _. cbn. intros s [].
  - intros root f a acc _. cbn [snd]. apply incl_appr, incl_refl.
  - intros X f a acc _ _. cbn. intros s [].
  - intros X f a acc _ IH. cbn [decorated].
    intros s Hs. apply IH in Hs. apply in_app_iff in Hs as [Hs|Hs].
    + apply in_app_iff. left. apply in_app_iff. left. exact Hs.
    + apply decorated_pushAttr in Hs. apply in_app_iff in Hs as [Hs|Hs].
      * apply in_app_iff. left. apply in_app_iff. right. exact Hs.
      * apply in_app_iff. right. exact Hs.
Qed.

(** Every decorated node inside a replacement, the replacement itself
    apart, is a node that was below the replaced node. *)
Lemma decorated_replacement (node new s : Node) :
  replacementOf node = Returns (Some new) ->
  In s (decorated new) ->
  s = new \/ In s (flat_map decorated (children node)).
Proof.
  intros Hrep Hs.
  destruct node as [| | | |X D|N P D|]; try discriminate.
  - cbn [replacementOf] in Hrep.
    apply visitExprStmt_Some in Hrep
      as (chainHead & termFunc & termArgs & message & level & attrs
          & -> & Hmsg & Hloop & ->).
    unfold flatStmt, slogLogAttrs in Hs. cbn [decorated flat_map app] in Hs.
    destruct Hs as [<-|Hs]; [left; reflexivity|]. right.
    cbn [children flat_map decorated]. rewrite app_nil_r.
    apply in_app_iff in Hs as [Hs|Hs].
    + apply in_app_iff. right.
      unfold messageOf in Hmsg. destruct (oneOf termFunc ["Msg"; "Msgf"]).
      * destruct termArgs as [|a0 rest]; [discriminate|]. injection Hmsg as <-.
        cbn [flat_map]. apply in_app_iff. left. exact Hs.
      * injection Hmsg as <-. destruct Hs.
    + apply in_app_iff. left.
      pose proof (decorated_chainLoop (Some message) chainHead []) as Hincl.
      rewrite Hloop in Hincl. cbn [snd flat_map] in Hincl. rewrite app_nil_r in Hincl.
      apply Hincl. exact Hs.
  - cbn [replacementOf] in Hrep. destruct (String.eqb _ _); [|discriminate].
    injection Hrep as <-. cbn in Hs. destruct Hs as [<-|[]]. left. reflexivity.
Qed.

(** C7: (1) whenever [Visit] records a replacement, it is a statement
    for a statement or an import for an import and carries exactly the
    decorations of the node it replaces, and when nothing is recorded the
    visitor is unchanged. (2) After both passes, at every position of the
    file that is not inside a replaced node, the output holds a node with
    the decorations of the input node: the recorded replacement where one
    was recorded, and otherwise the input node itself over rewritten
    children. (3) Every decorated node inside a replacement, the
    replacement apart, is a node found below the replaced node,
    unchanged. *)
Theorem replacement_keeps_decorations :
  (forall (v : RewriteVisitor) (id : NodeId) (node : Node),
      match Visit v id node with
      | Returns (v', false) =>
          exists new,
            v' = record v id new /\
            Decorations new = Decorations node /\
            ((exists X X' D, node = ExprStmt X D /\ new = ExprStmt X' D) \/
             (exists N P D, node = ImportSpec N P D /\ Value P = zerologImport /\
                            new = ImportSpec None
                                    {| Kind := STRING; Value := slogImport |} D))
      | Returns (v', true) => v' = v
      | Panics _ => True
      end) /\
  (forall (file out : Node) (v : RewriteVisitor) (q : list nat) (n : Node),
      transform file = Returns (v, out) ->
      nodeAt file q = Some n ->
      (forall q1 q2, q = q1 ++ q2 -> q2 <> [] -> Replacements v !! q1 = None) ->
      exists n',
        nodeAt out q = Some n' /\
        Decorations n' = Decorations n /\
        match Replacements v !! q with
        | Some new => n' = new
        | None => exists cs, n' = withChildren n cs /\ length cs = length (children n)
        end) /\
  (forall (node new s : Node),
      replacementOf node = Returns (Some new) ->
      In s (decorated new) ->
      s = new \/ In s (flat_map decorated (children node))).
Proof.
  split; [exact Visit_decorations|]. split; [|exact decorated_replacement].
  intros file out v q n Hrun Hat Habove.
  apply transform_out in Hrun as (Hwalk & Hrec & ->).
  destruct (visited_position q file _ _ _ n Hwalk Hat)
    as (Hnode & Hq & va & ida & vb & Hvisited).
  { intros q1 q2 Hsplit Hq2. rewrite <- Hrec. eapply Habove; eassumption. }
  exists (rewriteTree n). split; [exact Hnode|].
  split; [apply Decorations_rewriteTree|].
  rewrite Hrec, Hq. cbn [recorded]. rewrite rewriteTree_unfold.
  rewrite Walk_unfold in Hvisited.
  destruct (replacementOf n) as [[new|]|]; cbn [mbind outcome_bind] in Hvisited;
    [reflexivity| |discriminate].
  eexists. split; [reflexivity|]. apply length_map.
Qed.

(** On [fileDecorated]: the commented call that is no chain keeps its
    comment, the chain statement inside the closure is replaced under its
    own comment, and the commented statement inside the replaced outer
    statement is carried over as it is. *)
Lemma replacement_keeps_decorations_witness :
  exists v out,
    transform fileDecorated = Returns (v, out) /\
    (exists n',
        nodeAt out [2; 2; 1] = Some n' /\
        Decorations n' = Some (comment "// A call that should be ignored") /\
        Replacements v !! [2; 2; 1] = None) /\
    (exists n',
        nodeAt out [2; 2; 2; 0; 0; 1; 0] = Some n' /\
        Decorations n' = Some (comment "// in a closure") /\
        Replacements v !! [2; 2; 2; 0; 0; 1; 0] = Some n') /\
    (exists new,
        Replacements v !! [2; 2; 3] = Some new /\
        Decorations new = Some (comment "// outer") /\
        forall s, In s (decorated new) ->
                  s = new \/
                  s = ExprStmt (CallExpr (Ident "tick") []) (comment "// carried over")).
Proof.
  destruct replacement_keeps_decorations as (_ & Htree & Hinside).
  eexists _, _. split; [vm_compute; reflexivity|].
  split; [|split].
  - destruct (Htree fileDecorated _ _ [2; 2; 1]
                (ExprStmt
                   (CallExpr (SelectorExpr (Ident "fmt") "Println")
                      [BasicLit {| Kind := STRING; Value := quoted "regular" |}])
                   (comment "// A call that should be ignored"))
                ltac:(vm_compute; reflexivity) eq_refl)
      as (n' & Hn' & Hdecs & _).
    { intros q1 q2 Hq Hq2.
      destruct q1 as [|a [|b [|c q1]]].
      - vm_compute. reflexivity.
      - injection Hq as <- _. vm_compute. reflexivity.
      - injection Hq as <- <- _. vm_compute. reflexivity.
      - exfalso. injection Hq as _ _ _ Hq.
        destruct q1; [|discriminate]. destruct q2; [contradiction|discriminate]. }
    exists n'. split; [exact Hn'|]. split; [exact Hdecs|]. vm_compute. reflexivity.
  - eexists. split; [vm_compute; reflexivity|]. split; vm_compute; reflexivity.
  - eexists. split; [vm_compute; reflexivity|]. split; [reflexivity|].
    intros s Hs.
    destruct (Hinside
                (chainStmt "log" ("Info", [])
                   [("Str",
                     [BasicLit {| Kind := STRING; Value := quoted "k" |};
                      CallExpr
                        (OtherNode "FuncLit"
                           [OtherNode "FuncType" [];
                            OtherNode "BlockStmt"
                              [ExprStmt (CallExpr (Ident "tick") [])
                                 (comment "// carried over")]])
                        []])]
                   ("Msg", [BasicLit {| Kind := STRING; Value := quoted "outer" |}])
                   (comment "// outer"))
                _ s eq_refl Hs) as [H|H].
    + left. exact H.
    + right. cbn in H. destruct H as [H|[]]. symmetry. exact H.
Defined.

(** ** A second run that panics *)

(** Why the second run needs more than "nothing below would be
    replaced": in [filePanicInside] the first run completes, nothing
    below the replaced statement would be replaced, and the second run,
    which now visits the arguments, panics on [x.Info().Msg()]. *)
Example second_run_can_panic :
  exists v out,
    transform filePanicInside = Returns (v, out) /\
    noNestedMatch filePanicInside = false /\
    transform out = Panics "index out of range".
Proof.
  eexists _, _. split; [vm_compute; reflexivity|].
  split; vm_compute; reflexivity.
Qed.
